(** * daily-summary: a shallow embedding of the digest pipeline

    The four Python modules of the repository are embedded one Rocq module
    each:

    - [News]    : [news_client.py]     ([fetch_top_headlines])
    - [Weather] : [weather_client.py]  ([get_daily_weather])
    - [Mail]    : [email_fetcher.py]   ([fetch_unread], [_extract_snippet])
    - [Mailer]  : [summary_mailer.py]  ([build_body], [send_summary_email])

    Conventions shared by all of them live in [Py]: Python exceptions are
    values of [exn], a call either returns or raises ([result]), and every
    interaction with the outside world (an HTTP request, an IMAP or SMTP
    command) is appended to a log that the computation threads through, so
    that "no network action happened" is the statement that the log did
    not grow.  The outside world itself is an oracle argument. *)

From Stdlib Require Import ZArith QArith List Bool Ascii String Lia.
From Stdlib Require Import Floats Uint63.
From stdpp Require Import base option list strings gmap.

Local Open Scope string_scope.
Local Open Scope list_scope.
Local Open Scope Z_scope.

(** ** Python conventions *)

Module Py.

(** The exception classes that the four modules raise themselves, or that
    the library calls they make can raise. *)
Inductive exn : Type :=
| EnvironmentError (msg : string)
| RuntimeError (msg : string)
| ValueError (msg : string)
| HTTPError (status : Z)
| RequestException
| JSONDecodeError
| ZeroDivisionError
| KeyError (key : string)
| IndexError
| TypeError
| AttributeError
| LookupError
| IMAPError
| SMTPException
| SMTPServerDisconnected
| HeaderParseError
| OverflowError.

Inductive result (A : Type) : Type :=
| Ok (a : A)
| Raise (e : exn).
Arguments Ok {A} a.
Arguments Raise {A} e.

(** A computation over a log of events of type [E]: it is given the log so
    far and returns the extended log with its outcome. *)
Definition M (E A : Type) : Type := list E -> list E * result A.

Definition ret {E A} (a : A) : M E A := fun log => (log, Ok a).

Definition raise {E A} (e : exn) : M E A := fun log => (log, Raise e).

Definition bind {E A B} (m : M E A) (k : A -> M E B) : M E B :=
  fun log =>
    match m log with
    | (log', Ok a) => k a log'
    | (log', Raise e) => (log', Raise e)
    end.

(** [try: body finally: fin].  The clean-up runs on every exit path; an
    exception raised by the clean-up replaces the outcome of the body. *)
Definition try_finally {E A} (body : M E A) (fin : M E unit) : M E A :=
  fun log =>
    match body log with
    | (log', r) =>
        match fin log' with
        | (log'', Ok _) => (log'', r)
        | (log'', Raise e) => (log'', Raise e)
        end
    end.

(** Truth value of a [str]: the empty string is false. *)
Definition truthy (s : string) : bool :=
  match s with
  | EmptyString => false
  | String _ _ => true
  end.

(** Truth value of an [Optional[str]]: [None] and [""] are false. *)
Definition truthy_opt (o : option string) : bool :=
  match o with
  | None => false
  | Some s => truthy s
  end.

(** [sep.join(parts)]. *)
Fixpoint join (sep : string) (parts : list string) : string :=
  match parts with
  | [] => ""
  | [p] => p
  | p :: rest => p +:+ sep +:+ join sep rest
  end.

(** [l[:n]] for an integer [n]; a negative bound counts from the end. *)
Definition slice_to {A} (l : list A) (n : Z) : list A :=
  if n <? 0 then firstn (Z.to_nat (Z.of_nat (length l) + n)) l
  else firstn (Z.to_nat n) l.

(** The line feed character, written ["\n"] in the source. *)
Definition NL : string := String "010"%char EmptyString.

End Py.

Import Py.

Declare Scope py_scope.
Delimit Scope py_scope with py.
Notation "'let*' x ':=' m 'in' k" := (Py.bind m (fun x => k))
  (at level 10, x name, m at level 100, k at level 200) : py_scope.
Notation "m ';;;' k" := (Py.bind m (fun _ => k))
  (at level 100, k at level 200, right associativity) : py_scope.

(** The process environment, [os.environ]. *)
Abbreviation environ := (gmap string string).

(** * The [requests] library, as far as the two API clients use it *)

Module Requests.

Inductive param : Type :=
| PStr (s : string)
| PInt (z : Z).

(** [requests.get(url, params=params, timeout=timeout)].  The [params]
    dictionary is a finite map from parameter names to values. *)
Record http_request : Type := HttpGet {
  req_url : string;
  req_params : gmap string param;
  req_timeout : Z
}.

(** What the remote end answers: the transport fails (connection error,
    timeout), or there is a response with a status code and a body that
    decodes as a JSON document of type [B] ([Some]) or does not. *)
Inductive http_response (B : Type) : Type :=
| Failed (e : exn)
| Response (status : Z) (body : option B).
Arguments Failed {B} e.
Arguments Response {B} status body.

Section Get.

Context {B : Type}.
Variable http : http_request -> http_response B.

(** [requests.get]: the request is logged, then answered. *)
Definition get (rq : http_request) : M http_request (http_response B) :=
  fun log => (log ++ [rq],
              match http rq with
              | Failed e => Raise e
              | r => Ok r
              end).

End Get.

(** [response.raise_for_status()]: statuses 400..599 raise. *)
Definition raise_for_status {B} (r : http_response B) : M http_request unit :=
  match r with
  | Failed e => raise e
  | Response status _ =>
      if (400 <=? status) && (status <? 600) then raise (HTTPError status)
      else ret tt
  end.

(** [response.json()]. *)
Definition json {B} (r : http_response B) : M http_request B :=
  match r with
  | Failed e => raise e
  | Response _ None => raise JSONDecodeError
  | Response _ (Some d) => ret d
  end.

End Requests.

Import Requests.

(** * news_client.py *)

Module News.

(** One element of the [articles] array.  [title] and [url] are what
    [article.get("title")] and [article.get("url")] return: [None] when
    the key is missing or null. *)
Record article : Type := Article {
  title : option string;
  url : option string
}.

(** An element of the returned list, [{"title": title, "url": url}]. *)
Record headline : Type := Headline {
  h_title : string;
  h_url : string
}.

(** The decoded response body; [articles = None] when the key is missing,
    where [data.get("articles", [])] gives the empty list. *)
Record news_json : Type := NewsJson {
  articles : option (list article)
}.

(** [keywords] is an iterable of strings, or a single string. *)
Inductive keywords_arg : Type :=
| KwStr (s : string)
| KwList (l : list string).

(** The truth value of [keywords]: false for [None], the empty string and
    the empty list. *)
Definition keywords_truthy (k : option keywords_arg) : bool :=
  match k with
  | None => false
  | Some (KwStr s) => truthy s
  | Some (KwList []) => false
  | Some (KwList (_ :: _)) => true
  end.

(** [if isinstance(keywords, str): keywords = [keywords]]; [None] is
    left alone and is represented by the empty list, which has the same
    truth value and is not used otherwise. *)
Definition normalise_keywords (k : option keywords_arg) : list string :=
  match k with
  | None => []
  | Some (KwStr s) => [s]
  | Some (KwList l) => l
  end.

Definition list_truthy {A} (l : list A) : bool :=
  match l with [] => false | _ :: _ => true end.

(** One iteration of the [for article in articles[:limit]] loop. *)
Definition keep (results : list headline) (a : article) : list headline :=
  match title a, url a with
  | Some t, Some u =>
      if truthy t && truthy u then results ++ [Headline t u] else results
  | _, _ => results
  end.

(** The [params] dictionary: the two fixed entries, then [q] or
    [category]. *)
Definition build_params (api_key : string) (keywords : list string)
    (category : option string) (limit : Z) : gmap string param :=
  let params : gmap string param :=
    <["pageSize" := PInt limit]> (<["apiKey" := PStr api_key]> ∅) in
  if list_truthy keywords then <["q" := PStr (join " " keywords)]> params
  else if truthy_opt category
       then <["category" := PStr (default "" category)]> params
       else params.

Definition endpoint : string := "https://newsapi.org/v2/top-headlines".

Section Client.

Variable http : http_request -> http_response news_json.

Definition fetch_top_headlines (env : environ)
    (keywords : option keywords_arg) (category : option string) (limit : Z)
  : M http_request (list headline) :=
  (let api_key := env !! "NEWS_API_KEY" in
   if negb (truthy_opt api_key) then
     raise (EnvironmentError "NEWS_API_KEY is not set in environment variables")
   else if negb (keywords_truthy keywords) && negb (truthy_opt category) then
     raise (ValueError "Either keywords or category must be provided")
   else
     let keywords := normalise_keywords keywords in
     let limit := Z.max 3 (Z.min 5 limit) in
     let params := build_params (default "" api_key) keywords category limit in
     let* response := Requests.get http (HttpGet endpoint params 10) in
     raise_for_status response ;;;
     let* data := json response in
     let articles := default [] (articles data) in
     ret (fold_left keep (slice_to articles limit) []))%py.

End Client.

End News.

(** * weather_client.py *)

Module Weather.

(** ** Numbers *)

(** The numbers of the decoded answer are Python's [int] and [float]
    values, as [json] reads them.  What the interpreter computes with them
    is a parameter of the model: the client uses the constants [0] and
    [0.0], [sum], the division by a length and the comparison [>] that
    [max] makes.  [sum] raises [OverflowError] when a float is to be added
    to an integer that is too large for one, and the division when the
    quotient of two integers is; they raise nothing else on numbers, and
    [>] raises nothing. *)
Class Numbers (number : Type) : Type := {
  (** [0], which is [sum([])] *)
  int_zero : number;
  (** [0.0] *)
  float_zero : number;
  (** [sum(xs)] for a list that is not empty; [None] for [OverflowError] *)
  add_all : list number -> option number;
  (** [x / n] for a length [n] that is not zero; [None] for
      [OverflowError] *)
  quotient : number -> nat -> option number;
  (** [x > y] *)
  greater : number -> number -> bool
}.

(** One element of a sample's [weather] array. *)
Record weather_obj : Type := WeatherObj {
  description : option string
}.

Section Forecast.

Context {number : Type} {arith : Numbers number}.

(** The [main] object of a forecast sample. *)
Record main_obj : Type := MainObj {
  temp : option number
}.

(** One forecast sample.  A field is [None] when the key is missing from
    the JSON object. *)
Record entry : Type := Entry {
  dt_txt : option string;
  main : option main_obj;
  weather : option (list weather_obj);
  pop : option number
}.

(** The decoded response body, with [data.get("list", [])]. *)
Record forecast_json : Type := ForecastJson {
  list_ : option (list entry)
}.

(** The returned dictionary. *)
Record summary : Type := Summary {
  temperature : number;
  condition : string;
  chance_of_rain : number
}.

(** [entry.get("dt_txt", "").startswith(today)]. *)
Definition is_today (today : string) (e : entry) : bool :=
  String.prefix today (default "" (dt_txt e)).

(** Lines 41-46: the samples dated today, or else [list[:1]]. *)
Definition working_set (today : string) (samples : list entry) : list entry :=
  let todays_entries := filter (fun e => is_today today e = true) samples in
  match todays_entries with
  | [] => slice_to samples 1
  | _ :: _ => todays_entries
  end.

(** A list comprehension whose element expression can raise: elements are
    evaluated left to right and the first exception ends it. *)
Fixpoint comprehension {A B} (f : A -> result B) (l : list A) : result (list B) :=
  match l with
  | [] => Ok []
  | a :: rest =>
      match f a with
      | Raise e => Raise e
      | Ok b =>
          match comprehension f rest with
          | Raise e => Raise e
          | Ok bs => Ok (b :: bs)
          end
      end
  end.

(** [entry["main"]["temp"]]. *)
Definition get_temp (e : entry) : result number :=
  match main e with
  | None => Raise (KeyError "main")
  | Some m =>
      match temp m with
      | None => Raise (KeyError "temp")
      | Some t => Ok t
      end
  end.

(** [entry["weather"][0]["description"]]. *)
Definition get_description (e : entry) : result string :=
  match weather e with
  | None => Raise (KeyError "weather")
  | Some [] => Raise IndexError
  | Some (w :: _) =>
      match description w with
      | None => Raise (KeyError "description")
      | Some d => Ok d
      end
  end.

(** [sum(xs)]. *)
Definition sum (xs : list number) : result number :=
  match xs with
  | [] => Ok int_zero
  | _ :: _ =>
      match add_all xs with
      | Some total => Ok total
      | None => Raise OverflowError
      end
  end.

(** [total / n] for a length [n]. *)
Definition true_div (total : number) (n : nat) : result number :=
  match n with
  | O => Raise ZeroDivisionError
  | S _ =>
      match quotient total n with
      | Some q => Ok q
      | None => Raise OverflowError
      end
  end.

(** [collections.Counter]: a dictionary from labels to counts that keeps
    its keys in the order of their first insertion. *)
Fixpoint counter_incr (c : list (string * nat)) (x : string) : list (string * nat) :=
  match c with
  | [] => [(x, 1%nat)]
  | (k, n) :: rest =>
      if String.eqb k x then (k, S n) :: rest
      else (k, n) :: counter_incr rest x
  end.

Definition Counter (xs : list string) : list (string * nat) :=
  fold_left counter_incr xs [].

(** [max(it, key=...)] when a first element is known: a later element
    replaces the current one only when its key is strictly greater. *)
Fixpoint max_by_from {A} (key : A -> nat) (best : A) (l : list A) : A :=
  match l with
  | [] => best
  | x :: rest =>
      if (key best <? key x)%nat then max_by_from key x rest
      else max_by_from key best rest
  end.

(** [Counter.most_common(1)]: the first item with the greatest count, as
    a list of at most one item. *)
Definition most_common_1 (c : list (string * nat)) : list (string * nat) :=
  match c with
  | [] => []
  | item :: rest => [max_by_from snd item rest]
  end.

(** [most_common(1)[0][0]]. *)
Definition first_key (l : list (string * nat)) : result string :=
  match l with
  | [] => Raise IndexError
  | (k, _) :: _ => Ok k
  end.

(** [max(values)] when a first element is known: a later element replaces
    the current one only when [x > best] holds. *)
Fixpoint max_from (best : number) (l : list number) : number :=
  match l with
  | [] => best
  | x :: rest =>
      if greater x best then max_from x rest else max_from best rest
  end.

(** [max(values, default=d)]. *)
Definition max_default (values : list number) (d : number) : number :=
  match values with
  | [] => d
  | x :: rest => max_from x rest
  end.

(** Lines 48-59: the aggregation over the working set. *)
Definition aggregate (todays_entries : list entry) : result summary :=
  match comprehension get_temp todays_entries with
  | Raise e => Raise e
  | Ok temperatures =>
      match sum temperatures with
      | Raise e => Raise e
      | Ok total =>
          match true_div total (length temperatures) with
          | Raise e => Raise e
          | Ok avg_temp =>
              match comprehension get_description todays_entries with
              | Raise e => Raise e
              | Ok conditions =>
                  match first_key (most_common_1 (Counter conditions)) with
                  | Raise e => Raise e
                  | Ok condition =>
                      let chance_of_rain :=
                        max_default
                          (map (fun e => default float_zero (pop e)) todays_entries)
                          float_zero in
                      Ok (Summary avg_temp condition chance_of_rain)
                  end
              end
          end
      end
  end.

Definition endpoint : string := "https://api.openweathermap.org/data/2.5/forecast".

Definition lift {A} (r : result A) : M http_request A :=
  match r with
  | Ok a => ret a
  | Raise e => raise e
  end.

Section Client.

Variable http : http_request -> http_response forecast_json.

(** [today] is [datetime.utcnow().date().isoformat()], the reading of
    the clock at the time of the call. *)
Definition get_daily_weather (env : environ) (today : string)
    (location : string) : M http_request summary :=
  (let api_key := env !! "OPENWEATHER_API_KEY" in
   if negb (truthy_opt api_key) then
     raise (RuntimeError "OPENWEATHER_API_KEY environment variable not set")
   else
     let params : gmap string param :=
       <["units" := PStr "metric"]>
         (<["appid" := PStr (default "" api_key)]>
            (<["q" := PStr location]> ∅)) in
     let* response := Requests.get http (HttpGet endpoint params 10) in
     raise_for_status response ;;;
     let* data := json response in
     lift (aggregate (working_set today (default [] (list_ data)))))%py.

End Client.

End Forecast.

Arguments main_obj : clear implicits.
Arguments entry : clear implicits.
Arguments forecast_json : clear implicits.
Arguments summary : clear implicits.

(** ** Two arithmetics *)

(** Rational numbers: the arithmetic without rounding, which Python's
    agrees with as long as its sums and quotients are representable. *)
#[export] Instance exact : Numbers Q := {|
  int_zero := 0%Q;
  float_zero := 0%Q;
  add_all xs := Some (fold_left Qplus xs 0%Q);
  quotient x n := Some (x / inject_Z (Z.of_nat n))%Q;
  greater x y := match Qcompare x y with Gt => true | _ => false end
|}.

(** Binary floating point (IEEE 754, 64 bits, rounding to nearest), the
    format of Python's [float], with the additions of [sum] made from
    left to right, as CPython makes them up to version 3.11 (later
    versions compensate the rounding errors of the additions). *)
#[export] Instance binary64 : Numbers float := {|
  int_zero := 0%float;
  float_zero := 0%float;
  add_all xs := Some (fold_left PrimFloat.add xs 0%float);
  quotient x n := Some (x / PrimFloat.of_uint63 (Uint63.of_Z (Z.of_nat n)))%float;
  greater x y := PrimFloat.ltb y x
|}.

End Weather.

(** * Sequence methods shared by [str] and [bytes] *)

Module Text.

Section Sequences.

Context {C : Type}.
Variable space : C -> bool.

(** [s.lstrip()], [s.rstrip()], [s.strip()]. *)
Fixpoint lstrip (s : list C) : list C :=
  match s with
  | [] => []
  | c :: rest => if space c then lstrip rest else s
  end.

Definition rstrip (s : list C) : list C := rev (lstrip (rev s)).

Definition strip (s : list C) : list C := rstrip (lstrip s).

(** [s.split()]: the maximal runs of characters that are not white
    space.  [word] holds the run being read, last character first. *)
Fixpoint split_from (word : list C) (s : list C) : list (list C) :=
  match s with
  | [] => match word with [] => [] | _ :: _ => [rev word] end
  | c :: rest =>
      if space c then
        match word with
        | [] => split_from [] rest
        | _ :: _ => rev word :: split_from [] rest
        end
      else split_from (c :: word) rest
  end.

Definition split (s : list C) : list (list C) := split_from [] s.

(** [sep.join(parts)]. *)
Fixpoint join (sep : list C) (parts : list (list C)) : list C :=
  match parts with
  | [] => []
  | [p] => p
  | p :: rest => p ++ sep ++ join sep rest
  end.

(** The wording of the specification, for comparison with the code:
    "collapsing internal whitespace runs to single spaces, trimming".
    [collapse_runs] replaces every maximal run of white space by the
    one character [sp]; [in_run] tells that the previous character was
    white space already. *)
Fixpoint collapse_runs_from (sp : C) (in_run : bool) (s : list C) : list C :=
  match s with
  | [] => []
  | c :: rest =>
      if space c then
        if in_run then collapse_runs_from sp true rest
        else sp :: collapse_runs_from sp true rest
      else c :: collapse_runs_from sp false rest
  end.

Definition collapse_runs (sp : C) (s : list C) : list C :=
  collapse_runs_from sp false s.

Definition collapsed_and_trimmed (sp : C) (s : list C) : list C :=
  strip (collapse_runs sp s).

End Sequences.

End Text.

(** * email_fetcher.py *)

Module Mail.

(** A decoded text ([str]) is a sequence of Unicode code points, so that
    its length is its number of characters; raw data ([bytes]) is a
    sequence of bytes.  Header names, charsets and protocol keywords stay
    ordinary strings. *)
Definition str : Type := list N.
Definition bytes : Type := list Byte.byte.

(** The characters that [str.strip] and [str.split] treat as white
    space. *)
Definition isspace (c : N) : bool :=
  ((9 <=? c) && (c <=? 13) || (28 <=? c) && (c <=? 32)
   || (c =? 133) || (c =? 160) || (c =? 5760)
   || (8192 <=? c) && (c <=? 8202)
   || (c =? 8232) || (c =? 8233) || (c =? 8239) || (c =? 8287)
   || (c =? 12288))%N.

(** The bytes that [bytes.split] treats as white space. *)
Definition is_ascii_space (b : Byte.byte) : bool :=
  let c := Byte.to_N b in ((9 <=? c) && (c <=? 13) || (c =? 32))%N.

Definition SPACE : str := [32%N].

(** The header fields of a message (part) that the code reads. *)
Inductive subject_chunk : Type :=
| SubjectStr (s : str)
| SubjectBytes (b : bytes) (encoding : option string).

Record headers : Type := Headers {
  (** [decode_header(msg.get("Subject", ""))[0]] *)
  subject : subject_chunk;
  (** [get_content_type()] *)
  content_type : string;
  (** [get("Content-Disposition")] *)
  content_disposition : option string;
  (** [get_content_charset()] *)
  content_charset : option string
}.

(** What [get_payload(decode=True)] returns for a part that is not
    multipart. *)
Inductive payload : Type :=
| PayloadBytes (b : bytes)
| PayloadStr (s : str)
| PayloadNone.

#[warnings="-register-all"]
Inductive message : Type :=
| Single (h : headers) (p : payload)
| Multipart (h : headers) (parts : list message).

Definition headers_of (m : message) : headers :=
  match m with
  | Single h _ => h
  | Multipart h _ => h
  end.

Definition is_multipart (m : message) : bool :=
  match m with
  | Single _ _ => false
  | Multipart _ _ => true
  end.

(** [get_payload(decode=True)]: [None] for a multipart message. *)
Definition get_payload_decoded (m : message) : payload :=
  match m with
  | Single _ p => p
  | Multipart _ _ => PayloadNone
  end.

(** [msg.walk()]: the message itself, then its parts, depth first. *)
Fixpoint walk (m : message) : list message :=
  match m with
  | Single _ _ => [m]
  | Multipart _ parts => m :: flat_map walk parts
  end.

(** [x or "utf-8"]. *)
Definition or_utf8 (o : option string) : string :=
  if truthy_opt o then default "" o else "utf-8".

Section Fetcher.

(** [b.decode(charset, errors="replace")]; [None] when the codec is
    unknown ([LookupError]). *)
Variable decode : string -> bytes -> option str.

(** [email.message_from_bytes]. *)
Variable message_from_bytes : bytes -> message.

Definition decode_replace (charset : string) (p : payload) : result str :=
  match p with
  | PayloadBytes b =>
      match decode charset b with
      | Some s => Ok s
      | None => Raise LookupError
      end
  | PayloadStr _ => Raise AttributeError
  | PayloadNone => Raise AttributeError
  end.

(** The condition of line 86. *)
Definition is_plain_inline (part : message) : bool :=
  String.eqb (content_type (headers_of part)) "text/plain"
  && negb (truthy_opt (content_disposition (headers_of part))).

(** The [for part in msg.walk()] loop of lines 85-90, started with
    [text = ""]: the first part that satisfies the condition decides,
    and the loop ends there. *)
Fixpoint first_plain_text (parts : list message) : result str :=
  match parts with
  | [] => Ok []
  | part :: rest =>
      if is_plain_inline part then
        decode_replace (or_utf8 (content_charset (headers_of part)))
          (get_payload_decoded part)
      else first_plain_text rest
  end.

(** Lines 83-97: the text that the snippet is made of. *)
Definition body_text (msg : message) : result str :=
  if is_multipart msg then first_plain_text (walk msg)
  else
    match get_payload_decoded msg with
    | PayloadBytes b =>
        match decode (or_utf8 (content_charset (headers_of msg))) b with
        | Some s => Ok s
        | None => Raise LookupError
        end
    | PayloadStr s => Ok s
    | PayloadNone => Ok []
    end.

(** Lines 99-100. *)
Definition snippet_of_text (text : str) : str :=
  let snippet := Text.join SPACE (Text.split isspace (Text.strip isspace text)) in
  firstn 100 snippet.

Definition _extract_snippet (msg : message) : result str :=
  match body_text msg with
  | Raise e => Raise e
  | Ok text => Ok (snippet_of_text text)
  end.

(** Lines 63-65. *)
Definition decode_subject (msg : message) : result str :=
  match subject (headers_of msg) with
  | SubjectStr s => Ok s
  | SubjectBytes b encoding =>
      match decode (or_utf8 encoding) b with
      | Some s => Ok s
      | None => Raise LookupError
      end
  end.

(** ** The IMAP session *)

Inductive imap_cmd : Type :=
| Connect (host : string)
| Login (username password : string)
| Select (mailbox : string)
| Search (criteria : list string)
| Fetch (num : bytes) (message_parts : string)
| Store (num : bytes) (command flags : string)
| Close
| Logout.

(** One element of the data list of a reply. *)
Inductive imap_item : Type :=
| ItemBytes (b : bytes)
| ItemPair (envelope literal : bytes)
| ItemNone.

Inductive imap_reply : Type :=
| Fails (e : exn)
| Reply (status : string) (data : list imap_item).

(** The server: its reply to the last command of a session, given all
    the commands of the session so far. *)
Variable server : list imap_cmd -> imap_reply.

Definition command (c : imap_cmd) : M imap_cmd (string * list imap_item) :=
  fun log =>
    let log' := log ++ [c] in
    (log', match server log' with
           | Fails e => Raise e
           | Reply status data => Ok (status, data)
           end).

Definition lift {A} (r : result A) : M imap_cmd A :=
  match r with
  | Ok a => ret a
  | Raise e => raise e
  end.

(** [data[0].split()] *)
Definition message_numbers (data : list imap_item) : result (list bytes) :=
  match data with
  | [] => Raise IndexError
  | ItemBytes b :: _ => Ok (Text.split is_ascii_space b)
  | ItemPair _ _ :: _ => Raise AttributeError
  | ItemNone :: _ => Raise AttributeError
  end.

(** [msg_data[0][1]], as the argument of [message_from_bytes]. *)
Definition raw_message (msg_data : list imap_item) : result bytes :=
  match msg_data with
  | [] => Raise IndexError
  | ItemPair _ literal :: _ => Ok literal
  | ItemBytes [] :: _ => Raise IndexError
  | ItemBytes [_] :: _ => Raise IndexError
  | ItemBytes (_ :: _ :: _) :: _ => Raise AttributeError
  | ItemNone :: _ => Raise TypeError
  end.

Definition is_ok (status : string) : bool := String.eqb status "OK".

(** The [for num in data[0].split()] loop of lines 55-71. *)
Fixpoint fetch_loop (mark_as_read : bool) (nums : list bytes)
    (messages : list (str * str)) : M imap_cmd (list (str * str)) :=
  match nums with
  | [] => ret messages
  | num :: rest =>
      (let* r := command (Fetch num "(RFC822)") in
       if negb (is_ok (fst r)) then fetch_loop mark_as_read rest messages
       else
         let* raw := lift (raw_message (snd r)) in
         let msg := message_from_bytes raw in
         let* subject := lift (decode_subject msg) in
         let* snippet := lift (_extract_snippet msg) in
         let messages := messages ++ [(subject, snippet)] in
         (if mark_as_read
          then command (Store num "+FLAGS" "\Seen") ;;; ret tt
          else ret tt) ;;;
         fetch_loop mark_as_read rest messages)%py
  end.

Definition fetch_unread (host username password : string)
    (mailbox : string) (mark_as_read exclude_promotions : bool)
  : M imap_cmd (list (str * str)) :=
  (command (Connect host) ;;;
   try_finally
     (command (Login username password) ;;;
      command (Select mailbox) ;;;
      let* r :=
        (if exclude_promotions
         then command (Search ["X-GM-RAW"; "category:primary"; "UNSEEN"])
         else command (Search ["UNSEEN"])) in
      if negb (is_ok (fst r)) then ret []
      else
        let* nums := lift (message_numbers (snd r)) in
        fetch_loop mark_as_read nums [])
     (try_finally (command Close ;;; ret tt)
                  (command Logout ;;; ret tt)))%py.

End Fetcher.

End Mail.

(** * summary_mailer.py *)

Module Mailer.

(** [f"- {x}\n"] *)
Definition bullet (x : string) : string := "- " +:+ x +:+ NL.

(** [f"<li>{x}</li>"] *)
Definition li (x : string) : string := "<li>" +:+ x +:+ "</li>".

Definition build_body (email_items : list string) (weather : string)
    (headlines : list string) : string * string :=
  let items_list := join "" (map bullet email_items) in
  let headlines_list := join "" (map bullet headlines) in
  let text_body :=
    ("Daily Summary" +:+ NL +:+ NL)
    +:+ ("Weather:" +:+ NL +:+ weather +:+ NL +:+ NL)
    +:+ ("Headlines:" +:+ NL +:+ headlines_list +:+ NL)
    +:+ ("Items:" +:+ NL +:+ items_list) in
  let html_body :=
    ("<html><body>"
     +:+ "<h1>Daily Summary</h1>"
     +:+ ("<h2>Weather</h2><p>" +:+ weather +:+ "</p>")
     +:+ "<h2>Headlines</h2><ul>")
    +:+ join "" (map li headlines)
    +:+ ("</ul>" +:+ "<h2>Items</h2><ul>")
    +:+ join "" (map li email_items)
    +:+ ("</ul>" +:+ "</body></html>") in
  (text_body, html_body).

(** ** [int(s)] for a decimal literal *)

(** A string of the model is a Python [str] whose characters are code
    points below 256.  There, the blanks that [int] skips around the
    literal are the six ASCII ones (tab to carriage return, and the space)
    and the two of Latin-1, U+0085 and U+00A0; the separators U+001C to
    U+001F, which [str.strip] removes, are not among them.  The decimal
    digits are the ASCII ones. *)
Definition int_space (c : ascii) : bool :=
  let n := N_of_ascii c in
  ((9 <=? n) && (n <=? 13) || (n =? 32) || (n =? 133) || (n =? 160))%N.

Definition digit (c : ascii) : option Z :=
  let n := Z.of_N (N_of_ascii c) in
  if (48 <=? n) && (n <=? 57) then Some (n - 48) else None.

Definition is_digit (c : ascii) : bool :=
  match digit c with Some _ => true | None => false end.

(** Digits, with single underscores allowed between two digits. *)
Fixpoint digits_value (acc : Z) (after_digit : bool) (s : list ascii) : option Z :=
  match s with
  | [] => if after_digit then Some acc else None
  | c :: rest =>
      match digit c with
      | Some d => digits_value (10 * acc + d) true rest
      | None =>
          if Ascii.eqb c "_" && after_digit then digits_value acc false rest
          else None
      end
  end.

(** The longest prefix made of digits and underscores, and what follows. *)
Fixpoint digit_run (s : list ascii) : list ascii * list ascii :=
  match s with
  | c :: rest =>
      if is_digit c || Ascii.eqb c "_"
      then let (run, tail) := digit_run rest in (c :: run, tail)
      else ([], s)
  | [] => ([], [])
  end.

(** [sys.int_max_str_digits], as it is set when the interpreter starts. *)
Definition int_max_str_digits : nat := 4300.

(** Blanks around the literal are skipped and one sign may come first; the
    run of digits is read, refused when it has more than
    [int_max_str_digits] digits, and nothing may follow it.  Every error
    is a [ValueError]; the message of the first kind quotes the literal,
    which is left out here. *)
Definition int (s : string) : result Z :=
  let body := Text.strip int_space (list_ascii_of_string s) in
  let (sign, unsigned) :=
    match body with
    | c :: ds =>
        if Ascii.eqb c "+" then (1, ds)
        else if Ascii.eqb c "-" then (-1, ds)
        else (1, body)
    | [] => (1, [])
    end in
  let (run, tail) := digit_run unsigned in
  match digits_value 0 false run with
  | None => Raise (ValueError "invalid literal for int() with base 10")
  | Some z =>
      if (int_max_str_digits <? length (filter (fun c => is_digit c = true) run))%nat
      then Raise (ValueError "Exceeds the limit (4300 digits) for integer string conversion")
      else
        match tail with
        | [] => Ok (sign * z)
        | _ :: _ => Raise (ValueError "invalid literal for int() with base 10")
        end
  end.

(** ** The message and the SMTP session *)

(** A [MIMEMultipart("alternative")] message: its three headers and the
    attached [MIMEText] parts as (text, subtype) pairs. *)
Record mime_message : Type := MimeMessage {
  mime_subject : string;
  mime_from : string;
  mime_to : string;
  mime_parts : list (string * string)
}.

Inductive smtp_cmd : Type :=
| SmtpConnect (host : string) (port : Z)
| Starttls
| SmtpLogin (user password : string)
| Sendmail (from_addr : string) (to_addrs : list string) (msg : string)
| Quit.

Definition lift {A} (r : result A) : M smtp_cmd A :=
  match r with
  | Ok a => ret a
  | Raise e => raise e
  end.

(** [all(xs)] for a list of optional strings. *)
Definition all_truthy (xs : list (option string)) : bool :=
  forallb truthy_opt xs.

Section Dispatcher.

(** The mail transport: the exception, if any, with which the last command
    of a session fails, given all the commands of the session so far. *)
Variable smtp : list smtp_cmd -> option exn.

(** [msg.as_string()]: the text of the message, or the exception that the
    serialisation raises (for a header value with an embedded header
    line, [HeaderParseError]). *)
Variable as_string : mime_message -> result string.

Definition command (c : smtp_cmd) : M smtp_cmd unit :=
  fun log =>
    let log' := log ++ [c] in
    (log', match smtp log' with
           | Some e => Raise e
           | None => Ok tt
           end).

(** [SMTP.__exit__]: QUIT is sent; a server that has gone away already is
    not an error. *)
Definition smtp_exit : M smtp_cmd unit :=
  fun log =>
    let log' := log ++ [Quit] in
    (log', match smtp log' with
           | Some SMTPServerDisconnected => Ok tt
           | Some e => Raise e
           | None => Ok tt
           end).

(** [with smtplib.SMTP(host, port) as smtp: body]. *)
Definition with_smtp {A} (host : string) (port : Z) (body : M smtp_cmd A)
  : M smtp_cmd A :=
  (command (SmtpConnect host port) ;;; try_finally body smtp_exit)%py.

Definition send_summary_email (env : environ) (email_items : list string)
    (weather : string) (headlines : list string) : M smtp_cmd unit :=
  (let host := env !! "SMTP_HOST" in
   let* port := lift (int (default "587" (env !! "SMTP_PORT"))) in
   let user := env !! "SMTP_USER" in
   let password := env !! "SMTP_PASSWORD" in
   let from_addr := env !! "EMAIL_FROM" in
   let to_addr := env !! "EMAIL_TO" in
   if negb (all_truthy [host; user; password; from_addr; to_addr]) then
     raise (ValueError "Missing SMTP configuration in environment variables")
   else
     let host := default "" host in
     let user := default "" user in
     let password := default "" password in
     let from_addr := default "" from_addr in
     let to_addr := default "" to_addr in
     let (text_body, html_body) := build_body email_items weather headlines in
     let msg :=
       MimeMessage "Daily Summary" from_addr to_addr
         [(text_body, "plain"); (html_body, "html")] in
     with_smtp host port
       (command Starttls ;;;
        command (SmtpLogin user password) ;;;
        let* text := lift (as_string msg) in
        command (Sendmail from_addr [to_addr] text)))%py.

End Dispatcher.

End Mailer.

(** * Laws of the log monad *)

Module PySpec.

Lemma bind_ret {E A B} (a : A) (k : A -> M E B) log :
  bind (ret a) k log = k a log.
Proof. reflexivity. Qed.

Lemma bind_bind {E A B D} (m : M E A) (f : A -> M E B) (g : B -> M E D) log :
  bind (bind m f) g log = bind m (fun a => bind (f a) g) log.
Proof. unfold bind. destruct (m log) as [log' [a | e]]; reflexivity. Qed.

(** A clean-up that returns leaves the outcome of the body alone. *)
Lemma try_finally_returns {E A} (body : M E A) (fin : M E unit) log log' log'' r :
  body log = (log', r) ->
  fin log' = (log'', Ok tt) ->
  try_finally body fin log = (log'', r).
Proof. unfold try_finally. by intros -> ->. Qed.

End PySpec.

Import PySpec.

(** * Properties of news_client.py *)

Module NewsSpec.

Import News.

(** The headline that an article stands for. *)
Definition headline_of (a : article) : headline :=
  Headline (default "" (title a)) (default "" (url a)).

(** The loop body as a partial map. *)
Definition retained (a : article) : option headline :=
  match title a, url a with
  | Some t, Some u => if truthy t && truthy u then Some (Headline t u) else None
  | _, _ => None
  end.

Lemma truthy_nonempty s : truthy s = true <-> s <> "".
Proof. destruct s; simpl; split; intros; try done. Qed.

Lemma retained_Some a h :
  retained a = Some h <->
  title a = Some (h_title h) /\ url a = Some (h_url h)
  /\ h_title h <> "" /\ h_url h <> "".
Proof.
  unfold retained. destruct h as [ht hu]; simpl.
  destruct (title a) as [t|], (url a) as [u|]; try (split; [done | intros (? & ? & _); done]).
  destruct (truthy t) eqn:Ht, (truthy u) eqn:Hu; simpl; split;
    try (intros [= <- <-]; rewrite <- !truthy_nonempty; done);
    try done;
    intros ([= <-] & [= <-] & H1 & H2);
    apply truthy_nonempty in H1, H2; congruence.
Qed.

Lemma keep_retained acc a :
  keep acc a = acc ++ option_list (retained a).
Proof.
  unfold keep, retained.
  destruct (title a), (url a); simpl; rewrite ?app_nil_r; try done.
  destruct (_ && _); simpl; rewrite ?app_nil_r; done.
Qed.

(** The loop computes the retained articles, in order. *)
Lemma loop_omap l acc :
  fold_left keep l acc = acc ++ omap retained l.
Proof.
  revert acc. induction l as [|a l IH]; intros acc; simpl.
  - by rewrite app_nil_r.
  - rewrite IH, keep_retained. rewrite <- app_assoc. f_equal.
    destruct (retained a); done.
Qed.

Lemma omap_retained_length l : (length (omap retained l) <= length l)%nat.
Proof.
  induction l as [|a l IH]; csimpl; [lia |].
  destruct (retained a); csimpl; lia.
Qed.

Lemma omap_retained_sublist l :
  omap retained l `sublist_of` map headline_of l.
Proof.
  induction l as [|a l IH]; simpl; [constructor |].
  destruct (retained a) as [h|] eqn:E.
  - apply retained_Some in E as (Ht & Hu & _).
    replace (headline_of a) with h.
    + by constructor.
    + unfold headline_of. rewrite Ht, Hu. by destruct h.
  - by constructor.
Qed.

(** The clamp of the source, [max(3, min(5, limit))], is the clamp of the
    specification, [min(5, max(3, limit))]. *)
Lemma clamp_spec limit : Z.max 3 (Z.min 5 limit) = Z.min 5 (Z.max 3 limit).
Proof. lia. Qed.

Lemma slice_to_clamped {A} (l : list A) limit :
  slice_to l (Z.max 3 (Z.min 5 limit))
  = firstn (Z.to_nat (Z.min 5 (Z.max 3 limit))) l.
Proof.
  unfold slice_to. rewrite clamp_spec.
  destruct (Z.ltb_spec (Z.min 5 (Z.max 3 limit)) 0); [lia | done].
Qed.

Section Facts.

Variable http : http_request -> http_response news_json.

(** The request that a call issues once its two checks have passed. *)
Definition request_of (env : environ) (keywords : option keywords_arg)
    (category : option string) (limit : Z) : http_request :=
  HttpGet endpoint
    (build_params (default "" (env !! "NEWS_API_KEY"))
       (normalise_keywords keywords) category (Z.max 3 (Z.min 5 limit)))
    10.

(** What the call does on each of its three paths. *)
Lemma fetch_unfold env kw cat limit log :
  fetch_top_headlines http env kw cat limit log =
  if negb (truthy_opt (env !! "NEWS_API_KEY")) then
    (log, Raise (EnvironmentError "NEWS_API_KEY is not set in environment variables"))
  else if negb (keywords_truthy kw) && negb (truthy_opt cat) then
    (log, Raise (ValueError "Either keywords or category must be provided"))
  else
    (log ++ [request_of env kw cat limit],
     match http (request_of env kw cat limit) with
     | Failed e => Raise e
     | Response status body =>
         if (400 <=? status) && (status <? 600) then Raise (HTTPError status)
         else match body with
              | None => Raise JSONDecodeError
              | Some data =>
                  Ok (omap retained
                        (firstn (Z.to_nat (Z.min 5 (Z.max 3 limit)))
                           (default [] (articles data))))
              end
     end).
Proof.
  unfold fetch_top_headlines.
  destruct (negb (truthy_opt (env !! "NEWS_API_KEY"))); [done |].
  destruct (negb (keywords_truthy kw) && negb (truthy_opt cat)); [done |].
  unfold bind, Requests.get. fold (request_of env kw cat limit).
  destruct (http (request_of env kw cat limit)) as [e | status body]; [done |].
  unfold raise_for_status.
  destruct ((400 <=? status) && (status <? 600)); [done |].
  unfold ret, json. destruct body as [data |]; [| done].
  unfold raise, ret. rewrite loop_omap, slice_to_clamped. done.
Qed.

(** C10.  The credential check comes first: with [NEWS_API_KEY] unset (or
    empty) every call raises the configuration error, whatever its
    arguments, without issuing a request; so such a call never raises the
    caller error for missing selectors. *)
Theorem credential_check_comes_first env kw cat limit log :
  truthy_opt (env !! "NEWS_API_KEY") = false ->
  fetch_top_headlines http env kw cat limit log
  = (log, Raise (EnvironmentError "NEWS_API_KEY is not set in environment variables"))
  /\ (forall msg,
        snd (fetch_top_headlines http env kw cat limit log) <> Raise (ValueError msg)).
Proof.
  intros Hkey. rewrite fetch_unfold, Hkey. simpl. split; [done | intros msg; done].
Qed.

(** C7, as amended.  A call that gives neither keywords nor a category
    issues no request; what it raises is the caller error when the
    credential is present, and the configuration error when it is not. *)
Theorem no_selector_is_caller_error env kw cat limit log :
  keywords_truthy kw = false ->
  truthy_opt cat = false ->
  fst (fetch_top_headlines http env kw cat limit log) = log
  /\ (truthy_opt (env !! "NEWS_API_KEY") = true ->
      snd (fetch_top_headlines http env kw cat limit log)
      = Raise (ValueError "Either keywords or category must be provided"))
  /\ (truthy_opt (env !! "NEWS_API_KEY") = false ->
      snd (fetch_top_headlines http env kw cat limit log)
      = Raise (EnvironmentError "NEWS_API_KEY is not set in environment variables")).
Proof.
  intros Hkw Hcat. rewrite fetch_unfold, Hkw, Hcat.
  destruct (truthy_opt (env !! "NEWS_API_KEY")); done.
Qed.

(** The query string that the keywords stand for. *)
Definition query_of (kw : keywords_arg) : string :=
  match kw with
  | KwStr s => s
  | KwList terms => join " " terms
  end.

(** A request carries [category] only when the call gave no keywords. *)
Lemma category_only_without_keywords env kw cat limit v :
  req_params (request_of env kw cat limit) !! "category" = Some v ->
  keywords_truthy kw = false /\ Some v = PStr <$> cat.
Proof.
  unfold request_of, build_params; simpl.
  destruct (list_truthy (normalise_keywords kw)) eqn:Hl.
  - by rewrite !lookup_insert_ne, lookup_empty.
  - destruct (truthy_opt cat) eqn:Hc.
    + rewrite lookup_insert_eq. intros [= <-]. split.
      * destruct kw as [[s | [|]] |]; done.
      * destruct cat; done.
    + by rewrite !lookup_insert_ne, lookup_empty.
Qed.

(** C8.  A call with its credential and at least one selector issues one
    request.  When keywords are given, the request carries them as [q],
    joined by single spaces, and carries no [category], whatever category
    was given; and a request carries [category] only when no keywords were
    given. *)
Theorem keywords_take_precedence env kw cat limit log :
  truthy_opt (env !! "NEWS_API_KEY") = true ->
  keywords_truthy kw || truthy_opt cat = true ->
  exists rq,
    fst (fetch_top_headlines http env kw cat limit log) = log ++ [rq]
    /\ (forall k, kw = Some k -> keywords_truthy kw = true ->
          req_params rq !! "q" = Some (PStr (query_of k))
          /\ req_params rq !! "category" = None)
    /\ (forall v, req_params rq !! "category" = Some v ->
          keywords_truthy kw = false /\ Some v = PStr <$> cat).
Proof.
  intros Hkey Hsel. exists (request_of env kw cat limit).
  rewrite fetch_unfold, Hkey. cbn [negb].
  assert (negb (keywords_truthy kw) && negb (truthy_opt cat) = false) as ->.
  { by rewrite <- negb_orb, Hsel. }
  split; [done |]. split; [| apply category_only_without_keywords].
  intros k -> Hkw. unfold request_of, build_params. cbn [req_params].
  assert (list_truthy (normalise_keywords (Some k)) = true) as ->.
  { destruct k as [s | [|]]; done. }
  split.
  - rewrite lookup_insert_eq. f_equal. f_equal. by destruct k.
  - by rewrite !lookup_insert_ne, lookup_empty.
Qed.

(** C4.  Whenever the call returns, it has issued one request, the answer
    carried a list of articles, and the returned headlines are at most the
    clamped limit, all with non-empty title and url, exactly the usable
    ones among the first articles, in the order of the answer. *)
Theorem fetch_top_headlines_result env kw cat limit log log' results :
  fetch_top_headlines http env kw cat limit log = (log', Ok results) ->
  exists status data,
    let arts := default [] (articles data) in
    let n := Z.to_nat (Z.min 5 (Z.max 3 limit)) in
    log' = log ++ [request_of env kw cat limit]
    /\ req_params (request_of env kw cat limit) !! "pageSize"
        = Some (PInt (Z.min 5 (Z.max 3 limit)))
    /\ http (request_of env kw cat limit) = Response status (Some data)
    /\ (length results <= n)%nat
    /\ Forall (fun h => h_title h <> "" /\ h_url h <> "") results
    /\ (forall h, h ∈ results <->
                  exists a, a ∈ firstn n arts
                            /\ title a = Some (h_title h) /\ url a = Some (h_url h)
                            /\ h_title h <> "" /\ h_url h <> "")
    /\ results `sublist_of` map headline_of arts.
Proof.
  rewrite fetch_unfold.
  destruct (negb (truthy_opt (env !! "NEWS_API_KEY"))); [done |].
  destruct (negb (keywords_truthy kw) && negb (truthy_opt cat)); [done |].
  destruct (http (request_of env kw cat limit)) as [e | status body] eqn:Hhttp; [done |].
  destruct ((400 <=? status) && (status <? 600)); [done |].
  destruct body as [data |]; [| done].
  intros [= <- <-]. exists status, data. cbv zeta.
  set (n := Z.to_nat (Z.min 5 (Z.max 3 limit))).
  set (arts := default [] (articles data)).
  split; [done |]. split.
  { unfold request_of, build_params; simpl. rewrite clamp_spec.
    destruct (list_truthy _); [| destruct (truthy_opt cat)];
      rewrite ?(lookup_insert_ne _ "q"), ?(lookup_insert_ne _ "category") by done;
      by rewrite lookup_insert_eq. }
  split; [done |]. split.
  { etrans; [apply omap_retained_length |]. rewrite length_take. lia. }
  split.
  { apply Forall_forall. intros h Hh. apply list_elem_of_omap in Hh as (a & _ & Ha).
    apply retained_Some in Ha. tauto. }
  split.
  { intros h. rewrite list_elem_of_omap. split.
    - intros (a & Hin & Ha). apply retained_Some in Ha. exists a. tauto.
    - intros (a & Hin & Ha). exists a. split; [done |]. apply retained_Some. tauto. }
  etrans; [apply omap_retained_sublist |].
  apply (fmap_sublist headline_of), sublist_take.
Qed.

End Facts.

(** ** A run of the client *)

Definition sample_env : environ := {["NEWS_API_KEY" := "secret"]}.

Definition sample_articles : list article :=
  [ Article (Some "Alpha") (Some "https://news.example/a");
    Article (Some "") (Some "https://news.example/b");
    Article None (Some "https://news.example/c");
    Article (Some "Delta") (Some "https://news.example/d");
    Article (Some "Echo") None;
    Article (Some "Foxtrot") (Some "https://news.example/f") ].

Definition sample_http (rq : http_request) : http_response news_json :=
  Response 200 (Some (NewsJson (Some sample_articles))).

Definition sample_results : list headline :=
  [ Headline "Alpha" "https://news.example/a";
    Headline "Delta" "https://news.example/d" ].

Example fetch_top_headlines_sample :
  snd (fetch_top_headlines sample_http sample_env None (Some "technology") 10 [])
  = Ok sample_results.
Proof. vm_compute. reflexivity. Qed.

(** The run above, through the theorem of C4: two headlines for a limit
    clamped to 5, the sixth article being cut by the limit. *)
Lemma fetch_top_headlines_result_witness :
  snd (fetch_top_headlines sample_http sample_env None (Some "technology") 10 [])
  = Ok sample_results
  /\ (length sample_results <= 5)%nat
  /\ Forall (fun h => h_title h <> "" /\ h_url h <> "") sample_results
  /\ sample_results `sublist_of` map headline_of sample_articles.
Proof.
  assert (Hrun :
    fetch_top_headlines sample_http sample_env None (Some "technology") 10 []
    = ([request_of sample_env None (Some "technology") 10], Ok sample_results))
    by (vm_compute; reflexivity).
  destruct (fetch_top_headlines_result sample_http sample_env None
              (Some "technology") 10 [] _ sample_results Hrun)
    as (status & data & _ & _ & Hhttp & Hlen & Hall & _ & Hsub).
  injection Hhttp as _ <-.
  split; [by rewrite Hrun |]. split; [exact Hlen |]. split; [exact Hall | exact Hsub].
Defined.

(** Two keywords and a category: the request asks for the keywords. *)
Lemma keywords_take_precedence_witness :
  exists rq,
    fst (fetch_top_headlines sample_http sample_env
           (Some (KwList ["rocq"; "proof"])) (Some "technology") 5 [])
    = [rq]
    /\ req_params rq !! "q" = Some (PStr "rocq proof")
    /\ req_params rq !! "category" = None.
Proof.
  destruct (keywords_take_precedence sample_http sample_env
              (Some (KwList ["rocq"; "proof"])) (Some "technology") 5 []
              eq_refl eq_refl) as (rq & Hlog & Hkw & _).
  exists rq. split; [exact Hlog |]. exact (Hkw _ eq_refl eq_refl).
Defined.

(** No credential and no selector: the configuration error. *)
Lemma credential_check_comes_first_witness :
  fetch_top_headlines sample_http ∅ None None 5 []
  = ([], Raise (EnvironmentError "NEWS_API_KEY is not set in environment variables"))
  /\ (forall msg,
        snd (fetch_top_headlines sample_http ∅ None None 5 [])
        <> Raise (ValueError msg)).
Proof.
  apply (credential_check_comes_first sample_http ∅ None None 5 []). reflexivity.
Defined.

(** The credential, an empty list of keywords and an empty category: the
    caller error, and no request. *)
Lemma no_selector_is_caller_error_witness :
  fetch_top_headlines sample_http sample_env (Some (KwList [])) (Some "") 5 []
  = ([], Raise (ValueError "Either keywords or category must be provided")).
Proof.
  destruct (no_selector_is_caller_error sample_http sample_env
              (Some (KwList [])) (Some "") 5 [] eq_refl eq_refl)
    as (Hlog & Hraise & _).
  specialize (Hraise eq_refl).
  destruct (fetch_top_headlines sample_http sample_env (Some (KwList [])) (Some "") 5 [])
    as [log r].
  simpl in Hlog, Hraise. by rewrite Hlog, Hraise.
Defined.

(** C7, as stated, fails: with neither selector given and the credential
    unset, the call raises the configuration error, not the caller
    error. *)
Lemma no_selector_without_credential :
  keywords_truthy None = false
  /\ truthy_opt None = false
  /\ fetch_top_headlines sample_http ∅ None None 5 []
     = ([], Raise (EnvironmentError "NEWS_API_KEY is not set in environment variables")).
Proof. split; [reflexivity |]. split; reflexivity. Qed.

(** An empty string given as keywords counts as no keywords in the check
    of line 36, but it is a non-empty list after line 40. *)
Example empty_keyword_string :
  req_params (request_of sample_env (Some (KwStr "")) (Some "technology") 5) !! "q"
  = Some (PStr "")
  /\ req_params (request_of sample_env (Some (KwStr "")) (Some "technology") 5)
       !! "category" = None.
Proof. split; reflexivity. Qed.

End NewsSpec.

(** * Properties of weather_client.py *)

Module WeatherSpec.

Import Weather.

Section Samples.

Context {number : Type} {arith : Numbers number}.

(** ** The working set *)

Lemma working_set_today today (samples : list (entry number)) :
  filter (fun e => is_today today e = true) samples <> [] ->
  working_set today samples = filter (fun e => is_today today e = true) samples.
Proof.
  unfold working_set. destruct (filter _ samples); [done | done].
Qed.

Lemma working_set_fallback today (samples : list (entry number)) :
  filter (fun e => is_today today e = true) samples = [] ->
  working_set today samples = firstn 1 samples.
Proof. unfold working_set. intros ->. done. Qed.

(** The working set is empty only when no sample was returned. *)
Lemma working_set_empty today (samples : list (entry number)) :
  working_set today samples = [] <-> samples = [].
Proof.
  unfold working_set. split.
  - destruct (filter _ samples) eqn:E; [| done].
    destruct samples; done.
  - intros ->. done.
Qed.

(** ** What a sample carries *)

Definition temp_of (e : entry number) : option number :=
  match main e with
  | Some m => temp m
  | None => None
  end.

Definition description_of (e : entry number) : option string :=
  match weather e with
  | Some (w :: _) => description w
  | _ => None
  end.

Definition pop_or_zero (e : entry number) : number := default float_zero (pop e).

Lemma get_temp_Ok (e : entry number) t : get_temp e = Ok t <-> temp_of e = Some t.
Proof.
  unfold get_temp, temp_of. destruct (main e) as [m|]; simpl; [| done].
  destruct (temp m); simpl; split; congruence.
Qed.

Lemma get_description_Ok (e : entry number) d :
  get_description e = Ok d <-> description_of e = Some d.
Proof.
  unfold get_description, description_of.
  destruct (weather e) as [[|w ws]|]; simpl; try done.
  destruct (description w); simpl; split; congruence.
Qed.

Lemma comprehension_mapM {A B} (f : A -> result B) (g : A -> option B) l bs :
  (forall a b, f a = Ok b <-> g a = Some b) ->
  mapM g l = Some bs -> comprehension f l = Ok bs.
Proof.
  intros Hfg. revert bs. induction l as [|a l IH]; intros bs; simpl.
  - by intros [= <-].
  - destruct (g a) as [b|] eqn:Ea; simpl; [| done].
    apply Hfg in Ea. rewrite Ea.
    destruct (mapM g l) as [bs'|]; simpl; [| done].
    intros [= <-]. by rewrite (IH bs').
Qed.

End Samples.

(** ** The mean *)

(** The sum of a list of rational numbers. *)
Definition total (xs : list Q) : Q := fold_right Qplus 0%Q xs.

Lemma fold_left_Qplus xs a : (fold_left Qplus xs a == a + total xs)%Q.
Proof.
  revert a. induction xs as [|x xs IH]; intros a; simpl.
  - ring.
  - rewrite IH. ring.
Qed.

(** In the arithmetic without rounding, [sum(xs) / len(xs)] is the
    arithmetic mean of [xs]. *)
Lemma exact_mean (xs : list Q) tsum n avg :
  sum xs = Ok tsum ->
  true_div tsum n = Ok avg ->
  n <> O /\ (tsum == total xs)%Q /\ (avg * inject_Z (Z.of_nat n) == total xs)%Q.
Proof.
  intros Hsum Hdiv.
  assert (Htotal : (tsum == total xs)%Q).
  { destruct xs as [|x xs]; [by injection Hsum as <- |].
    cbn [sum add_all exact] in Hsum. injection Hsum as <-.
    rewrite fold_left_Qplus. unfold total. cbn [fold_right]. ring. }
  unfold true_div in Hdiv. destruct n as [|n]; [done |].
  cbn [quotient exact] in Hdiv. injection Hdiv as <-.
  split; [done |]. split; [done |]. rewrite <- Htotal. field.
  change 0%Q with (inject_Z 0). rewrite inject_Z_injective. lia.
Qed.

(** The arithmetic of a non-empty list that does not overflow. *)
Lemma sum_Ok {number : Type} {arith : Numbers number} (xs : list number) tsum :
  xs <> [] -> (sum xs = Ok tsum <-> add_all xs = Some tsum).
Proof.
  destruct xs as [|x xs]; [done |]. intros _. cbn [sum].
  destruct (add_all (x :: xs)); split; congruence.
Qed.

Lemma true_div_Ok {number : Type} {arith : Numbers number} (tsum : number) n avg :
  true_div tsum n = Ok avg <-> n <> O /\ quotient tsum n = Some avg.
Proof.
  destruct n as [|n]; cbn [true_div]; [split; [done | by intros [? _]] |].
  destruct (quotient tsum (S n)); split;
    [intros [= <-]; by split | intros [_ [= <-]]; done | done | by intros [_ ?]].
Qed.

(** On numbers, [sum] and the division raise nothing but
    [OverflowError], and the division by zero [ZeroDivisionError]. *)
Lemma sum_raises {number : Type} {arith : Numbers number} (xs : list number) e :
  sum xs = Raise e -> e = OverflowError.
Proof.
  destruct xs as [|x xs]; [done |]. cbn [sum].
  destruct (add_all (x :: xs)); [done | by intros [= <-]].
Qed.

Lemma true_div_raises {number : Type} {arith : Numbers number} (tsum : number) n e :
  n <> O -> true_div tsum n = Raise e -> e = OverflowError.
Proof.
  destruct n as [|n]; [done |]. intros _. cbn [true_div].
  destruct (quotient tsum (S n)); [done | by intros [= <-]].
Qed.

(** ** The most frequent label *)

Fixpoint occurrences (d : string) (l : list string) : nat :=
  match l with
  | [] => 0
  | x :: rest => if String.eqb x d then S (occurrences d rest) else occurrences d rest
  end.

(** The position of the first occurrence (the length when there is none). *)
Fixpoint first_index (d : string) (l : list string) : nat :=
  match l with
  | [] => 0
  | x :: rest => if String.eqb x d then 0 else S (first_index d rest)
  end.

(** [c] is the most frequent label of [l], the first-encountered one among
    the labels that are as frequent. *)
Definition most_frequent (c : string) (l : list string) : Prop :=
  c ∈ l /\
  forall d, d ∈ l ->
    (occurrences d l <= occurrences c l)%nat
    /\ (occurrences d l = occurrences c l -> (first_index c l <= first_index d l)%nat).

Lemma eqb_decide x d : String.eqb x d = bool_decide (x = d).
Proof.
  destruct (String.eqb_spec x d).
  - by rewrite bool_decide_eq_true_2.
  - by rewrite bool_decide_eq_false_2.
Qed.

Lemma occurrences_snoc k p x :
  occurrences k (p ++ [x]) = (occurrences k p + (if bool_decide (x = k) then 1 else 0))%nat.
Proof.
  induction p as [|y p IH]; simpl.
  - rewrite eqb_decide. by destruct (bool_decide _).
  - rewrite IH. by destruct (String.eqb y k).
Qed.

Lemma occurrences_notin k p : k ∉ p -> occurrences k p = 0%nat.
Proof.
  induction p as [|y p IH]; simpl; [done |].
  rewrite not_elem_of_cons. intros [Hne Hp].
  rewrite eqb_decide, bool_decide_eq_false_2 by done. auto.
Qed.

Lemma first_index_lt k p : k ∈ p -> (first_index k p < length p)%nat.
Proof.
  induction p as [|y p IH]; simpl; [by rewrite elem_of_nil |].
  rewrite elem_of_cons, eqb_decide. intros Hin.
  destruct (bool_decide_reflect (y = k)); [lia |].
  destruct Hin as [-> | Hin]; [done |]. apply IH in Hin. lia.
Qed.

Lemma first_index_app_l k p q : k ∈ p -> first_index k (p ++ q) = first_index k p.
Proof.
  induction p as [|y p IH]; simpl; [by rewrite elem_of_nil |].
  rewrite elem_of_cons, eqb_decide. intros Hin.
  destruct (bool_decide_reflect (y = k)); [done |].
  destruct Hin as [-> | Hin]; [done |]. by rewrite IH.
Qed.

Lemma first_index_snoc_new x p : x ∉ p -> first_index x (p ++ [x]) = length p.
Proof.
  induction p as [|y p IH]; simpl.
  - by rewrite String.eqb_refl.
  - rewrite not_elem_of_cons. intros [Hne Hp].
    rewrite eqb_decide, bool_decide_eq_false_2 by done. auto.
Qed.

(** Membership in a list written with [++] and [::]. *)
Ltac in_list :=
  rewrite ?elem_of_app, ?elem_of_cons, ?list_elem_of_singleton; auto 6.

(** *** [Counter] *)

Lemma counter_incr_new c x :
  x ∉ c.*1 -> counter_incr c x = c ++ [(x, 1%nat)].
Proof.
  induction c as [|[k n] c IH]; simpl; [done |].
  rewrite not_elem_of_cons. intros [Hne Hc].
  rewrite eqb_decide, bool_decide_eq_false_2 by done. by rewrite IH.
Qed.

Lemma counter_incr_old c x :
  x ∈ c.*1 ->
  exists c1 n c2,
    c = c1 ++ (x, n) :: c2 /\ (x ∉ c1.*1)
    /\ counter_incr c x = c1 ++ (x, S n) :: c2.
Proof.
  induction c as [|[k n] c IH]; simpl; [by rewrite elem_of_nil |].
  rewrite elem_of_cons, eqb_decide. intros Hin.
  destruct (bool_decide_reflect (k = x)) as [-> | Hne].
  - exists [], n, c. split; [done |]. split; [apply not_elem_of_nil | done].
  - destruct Hin as [-> | Hin]; [done |].
    destruct (IH Hin) as (c1 & m & c2 & -> & Hc1 & ->).
    exists ((k, n) :: c1), m, c2. split; [done |]. split; [| done].
    simpl. rewrite not_elem_of_cons. split; [congruence | done].
Qed.

(** The state of the counter after the labels [p] have been counted. *)
Record counted (c : list (string * nat)) (p : list string) : Prop := {
  counted_nodup : NoDup c.*1;
  counted_occurrences : forall k n, (k, n) ∈ c -> k ∈ p /\ n = occurrences k p;
  counted_keys : forall k, k ∈ p -> k ∈ c.*1;
  counted_order : forall i j k k',
    c.*1 !! i = Some k -> c.*1 !! j = Some k' -> (i < j)%nat ->
    (first_index k p < first_index k' p)%nat
}.

Lemma counted_nil : counted [] [].
Proof.
  split; simpl.
  - constructor.
  - intros k n H. by apply elem_of_nil in H.
  - done.
  - intros i j k k' H. done.
Qed.

Lemma counted_step c p x :
  counted c p -> counted (counter_incr c x) (p ++ [x]).
Proof.
  intros [Hnd Hocc Hkeys Hord].
  destruct (decide (x ∈ c.*1)) as [Hin | Hnin].
  - destruct (counter_incr_old c x Hin) as (c1 & n & c2 & Hc & Hc1 & ->).
    assert (Hk : (c1 ++ (x, S n) :: c2).*1 = c.*1).
    { rewrite Hc, !fmap_app. done. }
    assert (Hxp : x ∈ p).
    { apply (Hocc x n). rewrite Hc. in_list. }
    split.
    + by rewrite Hk.
    + intros k m Hm. rewrite occurrences_snoc.
      assert (Hcase : (k, m) ∈ c /\ k <> x \/ k = x /\ m = S n).
      { rewrite elem_of_app, elem_of_cons in Hm.
        destruct (decide (k = x)) as [-> | Hne].
        - right. split; [done |].
          rewrite Hc, fmap_app in Hnd. simpl in Hnd.
          apply NoDup_app in Hnd as (_ & Hd & Hnd2).
          apply NoDup_cons in Hnd2 as [Hx2 _].
          destruct Hm as [Hm | [Hm | Hm]].
          + exfalso. apply Hc1. apply list_elem_of_fmap. by exists (x, m).
          + congruence.
          + exfalso. apply Hx2. apply list_elem_of_fmap. by exists (x, m).
        - left. split; [| done]. rewrite Hc, elem_of_app, elem_of_cons.
          destruct Hm as [Hm | [Hm | Hm]]; [auto | congruence | auto]. }
      destruct Hcase as [[Hm' Hne] | [-> ->]].
      * destruct (Hocc k m Hm') as [Hkp ->]. split; [in_list |].
        rewrite bool_decide_eq_false_2 by congruence. lia.
      * split; [in_list |].
        assert ((x, n) ∈ c) as Hn by (rewrite Hc; in_list).
        destruct (Hocc x n Hn) as [_ ->].
        rewrite bool_decide_eq_true_2 by done. lia.
    + intros k. rewrite Hk, elem_of_app, list_elem_of_singleton.
      intros [Hkp | ->]; auto.
    + rewrite Hk. intros i j k k' Hi Hj Hlt.
      assert (k ∈ p) by (apply (Hocc k (occurrences k p)); 
        apply list_elem_of_lookup_2 in Hi; apply list_elem_of_fmap in Hi as ([k0 n0] & -> & Hi);
        simpl; by destruct (Hocc k0 n0 Hi) as [? <-]).
      assert (k' ∈ p) by (apply (Hocc k' (occurrences k' p));
        apply list_elem_of_lookup_2 in Hj; apply list_elem_of_fmap in Hj as ([k0 n0] & -> & Hj);
        simpl; by destruct (Hocc k0 n0 Hj) as [? <-]).
      rewrite !first_index_app_l by done. eauto.
  - rewrite (counter_incr_new c x Hnin).
    assert (Hxp : x ∉ p) by (intros H; by apply Hnin, Hkeys).
    assert (Hk : (c ++ [(x, 1%nat)]).*1 = c.*1 ++ [x]) by by rewrite fmap_app.
    assert (Hmem : forall k, k ∈ c.*1 -> k ∈ p).
    { intros k Hkc. apply list_elem_of_fmap in Hkc as ([k0 n0] & -> & Hkc).
      by destruct (Hocc k0 n0 Hkc). }
    split.
    + rewrite Hk. apply NoDup_app. split; [done |]. split.
      * intros k Hkc. rewrite list_elem_of_singleton. intros ->. done.
      * apply NoDup_singleton.
    + intros k m. rewrite elem_of_app, list_elem_of_singleton, occurrences_snoc.
      intros [Hm | [= -> ->]].
      * destruct (Hocc k m Hm) as [Hkp ->]. split; [in_list |].
        rewrite bool_decide_eq_false_2; [lia |]. intros ->. done.
      * split; [in_list |]. rewrite occurrences_notin by done.
        by rewrite bool_decide_eq_true_2.
    + intros k. rewrite Hk, !elem_of_app, list_elem_of_singleton.
      intros [Hkp | ->]; auto.
    + rewrite Hk. intros i j k k' Hi Hj Hlt.
      assert (Hi' : c.*1 !! i = Some k).
      { apply lookup_lt_Some in Hj. rewrite length_app in Hj. simpl in Hj.
        rewrite lookup_app_l in Hi by lia. done. }
      assert (Hkp : k ∈ p) by (eapply Hmem, list_elem_of_lookup_2; done).
      rewrite (first_index_app_l k) by done.
      destruct (decide (j < length c.*1)%nat) as [Hj' | Hj'].
      * rewrite lookup_app_l in Hj by done.
        assert (k' ∈ p) by (eapply Hmem, list_elem_of_lookup_2; done).
        rewrite (first_index_app_l k') by done. eauto.
      * rewrite lookup_app_r in Hj by lia.
        apply list_lookup_singleton_Some in Hj as [_ <-].
        rewrite first_index_snoc_new by done. by apply first_index_lt.
Qed.

Lemma counted_fold l c p :
  counted c p -> counted (fold_left counter_incr l c) (p ++ l).
Proof.
  revert c p. induction l as [|x l IH]; intros c p Hc; simpl.
  - by rewrite app_nil_r.
  - replace (p ++ x :: l) with ((p ++ [x]) ++ l) by by rewrite <- app_assoc.
    by apply IH, counted_step.
Qed.

Lemma counted_Counter l : counted (Counter l) l.
Proof. apply (counted_fold l [] []), counted_nil. Qed.

(** *** [most_common(1)] *)

(** [max] with a key returns the first of the items with the greatest
    key. *)
Lemma max_by_from_first {A} (key : A -> nat) best l :
  exists i,
    (best :: l) !! i = Some (max_by_from key best l)
    /\ (forall x, x ∈ best :: l -> (key x <= key (max_by_from key best l))%nat)
    /\ (forall j x, (j < i)%nat -> (best :: l) !! j = Some x ->
                    (key x < key (max_by_from key best l))%nat).
Proof.
  revert best. induction l as [|y l IH]; intros best; simpl.
  - exists O. split; [done |]. split.
    + intros x. rewrite list_elem_of_singleton. by intros ->.
    + intros j x Hj. lia.
  - destruct (Nat.ltb_spec (key best) (key y)) as [Hlt | Hge].
    + destruct (IH y) as (i & Hi & Hmax & Hfirst).
      set (r := max_by_from key y l) in *.
      assert (key y <= key r)%nat by (apply Hmax; in_list).
      exists (S i). split; [done |]. split.
      * intros x. rewrite elem_of_cons. intros [-> | Hx]; [lia | by apply Hmax].
      * intros [|j] x Hj; simpl.
        -- intros [= <-]. lia.
        -- intros Hx. apply (Hfirst j); [lia | done].
    + destruct (IH best) as (i & Hi & Hmax & Hfirst).
      set (r := max_by_from key best l) in *.
      assert (key best <= key r)%nat by (apply Hmax; in_list).
      destruct i as [|i].
      * exists O. simpl in Hi. split; [done |]. split.
        -- intros x. rewrite !elem_of_cons.
           intros [-> | [-> | Hx]]; [done | lia | apply Hmax; in_list].
        -- intros j x Hj. lia.
      * exists (S (S i)). split; [done |]. split.
        -- intros x. rewrite !elem_of_cons.
           intros [-> | [-> | Hx]]; [done | lia | apply Hmax; in_list].
        -- assert (key best < key r)%nat by (apply (Hfirst O); [lia | done]).
           intros [|[|j]] x Hj; simpl.
           ++ by intros [= <-].
           ++ intros [= <-]. lia.
           ++ intros Hx. apply (Hfirst (S j)); [lia | done].
Qed.

(** On a non-empty list of labels, [Counter(...).most_common(1)[0][0]] is
    the most frequent label, the first-encountered one on a tie. *)
Lemma most_common_most_frequent l :
  l <> [] ->
  exists c, first_key (most_common_1 (Counter l)) = Ok c /\ most_frequent c l.
Proof.
  intros Hl. pose proof (counted_Counter l) as [Hnd Hocc Hkeys Hord].
  destruct (Counter l) as [|item rest] eqn:EC.
  { destruct l as [|x l]; [done |].
    specialize (Hkeys x). simpl in Hkeys. exfalso.
    eapply not_elem_of_nil, Hkeys. in_list. }
  simpl. destruct (max_by_from_first snd item rest) as (i & Hi & Hmax & Hfirst).
  destruct (max_by_from snd item rest) as [c n] eqn:Er.
  exists c. split; [done |].
  assert (Hcn : (c, n) ∈ item :: rest) by (eapply list_elem_of_lookup_2; done).
  destruct (Hocc c n Hcn) as [Hc Hn].
  split; [done |]. intros d Hd.
  apply Hkeys, list_elem_of_lookup_1 in Hd as [j Hj].
  rewrite list_lookup_fmap in Hj.
  destruct ((item :: rest) !! j) as [[d' m]|] eqn:Ej; simpl in Hj; [| done].
  injection Hj as ->.
  assert (Hdm : (d, m) ∈ item :: rest) by (eapply list_elem_of_lookup_2; done).
  destruct (Hocc d m Hdm) as [_ Hm].
  specialize (Hmax (d, m) Hdm). simpl in Hmax.
  split; [lia |]. intros Heq.
  destruct (decide (j < i)%nat) as [Hlt | Hge].
  { specialize (Hfirst j (d, m) Hlt Ej). simpl in Hfirst. lia. }
  destruct (decide (i = j)) as [-> | Hne].
  { rewrite Hi in Ej. injection Ej as -> ->. done. }
  apply Nat.lt_le_incl, (Hord i j).
  - by rewrite list_lookup_fmap, Hi.
  - by rewrite list_lookup_fmap, Ej.
  - lia.
Qed.

Lemma most_frequent_constant c d l :
  most_frequent c l -> Forall (eq d) l -> c = d.
Proof.
  intros [Hc _] Hall. rewrite Forall_forall in Hall. symmetry. by apply Hall.
Qed.

(** ** The greatest value *)

Section Greatest.

Context {number : Type} {arith : Numbers number}.

Lemma max_from_in (best : number) l : max_from best l ∈ best :: l.
Proof.
  revert best. induction l as [|x l IH]; intros best; cbn [max_from].
  - in_list.
  - destruct (greater x best).
    + specialize (IH x). revert IH. rewrite !elem_of_cons. tauto.
    + specialize (IH best). revert IH. rewrite !elem_of_cons. tauto.
Qed.

(** When [>] is a strict order, nothing in the list is greater than what
    [max] returns. *)
Lemma max_from_greatest (best : number) l :
  (forall x, greater x x = false) ->
  (forall x y z, greater x y = true -> greater y z = true -> greater x z = true) ->
  Forall (fun x => greater x (max_from best l) = false) (best :: l).
Proof.
  intros Hirr Htrans.
  assert (Hstep : forall seen b,
             Forall (fun x => greater x b = false) seen ->
             Forall (fun x => greater x (max_from b l) = false) (seen ++ l)).
  { induction l as [|y l IH]; intros seen b Hseen; cbn [max_from].
    - by rewrite app_nil_r.
    - replace (seen ++ y :: l) with ((seen ++ [y]) ++ l) by (by rewrite <- app_assoc).
      destruct (greater y b) eqn:Hy.
      + apply IH. apply Forall_app. split; [| by repeat constructor].
        eapply Forall_impl; [exact Hseen |]. cbn beta. intros x Hx.
        destruct (greater x y) eqn:Hxy; [| done].
        by rewrite (Htrans x y b Hxy Hy) in Hx.
      + apply IH. apply Forall_app. split; [done | by repeat constructor]. }
  apply (Hstep [best] best). by repeat constructor.
Qed.

(** [max(values, default=0.0)] on a non-empty list: one of the values. *)
Lemma max_default_in (values : list number) d :
  values <> [] -> max_default values d ∈ values.
Proof. destruct values as [|x l]; [done |]. intros _. apply max_from_in. Qed.

Lemma max_default_greatest (values : list number) d :
  (forall x, greater x x = false) ->
  (forall x y z, greater x y = true -> greater y z = true -> greater x z = true) ->
  Forall (fun x => greater x (max_default values d) = false) values.
Proof.
  intros Hirr Htrans. destruct values as [|x l]; [constructor |].
  by apply max_from_greatest.
Qed.

(** ** The aggregation *)

(** The aggregation of a non-empty working set whose samples all carry a
    temperature and a description, when the arithmetic does not
    overflow. *)
Lemma aggregate_summary (ws : list (entry number)) temps descs tsum avg :
  ws <> [] ->
  mapM temp_of ws = Some temps ->
  mapM description_of ws = Some descs ->
  sum temps = Ok tsum ->
  true_div tsum (length temps) = Ok avg ->
  exists s,
    aggregate ws = Ok s
    /\ temperature s = avg
    /\ most_frequent (condition s) descs
    /\ (forall d, Forall (eq d) descs -> condition s = d)
    /\ chance_of_rain s ∈ map pop_or_zero ws
    /\ ((forall x, greater x x = false) ->
        (forall x y z,
            greater x y = true -> greater y z = true -> greater x z = true) ->
        Forall (fun e => greater (pop_or_zero e) (chance_of_rain s) = false) ws)
    /\ (Forall (fun e => pop e = None) ws -> chance_of_rain s = float_zero).
Proof.
  intros Hws Ht Hd Hsum Hdiv. unfold aggregate.
  assert (Hld : length descs = length ws) by (symmetry; by eapply length_mapM).
  rewrite (comprehension_mapM get_temp temp_of ws temps get_temp_Ok Ht).
  rewrite (comprehension_mapM get_description description_of ws descs
             get_description_Ok Hd).
  rewrite Hsum, Hdiv.
  assert (Hdescs : descs <> []) by (destruct descs, ws; simpl in *; done).
  destruct (most_common_most_frequent descs Hdescs) as (c & -> & Hc).
  eexists. split; [done |]. cbn [temperature condition chance_of_rain].
  assert (Hpops : map (fun e => default float_zero (pop e)) ws <> [])
    by (destruct ws; done).
  pose proof (max_default_in _ float_zero Hpops) as Hin.
  split; [done |]. split; [done |]. split.
  { intros d Hsame. by eapply most_frequent_constant. }
  split; [done |]. split.
  { intros Hirr Htrans.
    pose proof (max_default_greatest
                  (map (fun e => default float_zero (pop e)) ws) float_zero
                  Hirr Htrans) as Hall.
    rewrite Forall_forall in Hall. apply Forall_forall. intros e He.
    apply Hall. apply list_elem_of_fmap. by exists e. }
  intros Hnone. apply list_elem_of_fmap in Hin as (e & -> & He).
  rewrite Forall_forall in Hnone. by rewrite (Hnone e He).
Qed.

(** The same working set when the sum or the division overflows. *)
Lemma aggregate_overflow (ws : list (entry number)) temps descs :
  ws <> [] ->
  mapM temp_of ws = Some temps ->
  mapM description_of ws = Some descs ->
  (forall tsum avg,
      sum temps = Ok tsum -> true_div tsum (length temps) = Ok avg -> False) ->
  aggregate ws = Raise OverflowError.
Proof.
  intros Hws Ht Hd Hover. unfold aggregate.
  assert (Hlt : length temps = length ws) by (symmetry; by eapply length_mapM).
  rewrite (comprehension_mapM get_temp temp_of ws temps get_temp_Ok Ht).
  destruct (sum temps) as [tsum | e] eqn:Hsum.
  - destruct (true_div tsum (length temps)) as [avg | e] eqn:Hdiv.
    + destruct (Hover tsum avg eq_refl Hdiv).
    + apply true_div_raises in Hdiv as ->; [done |].
      rewrite Hlt. by destruct ws.
  - by apply sum_raises in Hsum as ->.
Qed.

End Greatest.

Section Facts.

Context {number : Type} {arith : Numbers number}.

Variable http : http_request -> http_response (forecast_json number).

(** The request of a call that has found its credential. *)
Definition request_of (env : environ) (location : string) : http_request :=
  HttpGet endpoint
    (<["units" := PStr "metric"]>
       (<["appid" := PStr (default "" (env !! "OPENWEATHER_API_KEY"))]>
          (<["q" := PStr location]> ∅)))
    10.

Lemma get_daily_weather_unfold env today location log :
  get_daily_weather http env today location log =
  if negb (truthy_opt (env !! "OPENWEATHER_API_KEY")) then
    (log, Raise (RuntimeError "OPENWEATHER_API_KEY environment variable not set"))
  else
    (log ++ [request_of env location],
     match http (request_of env location) with
     | Failed e => Raise e
     | Response status body =>
         if (400 <=? status) && (status <? 600) then Raise (HTTPError status)
         else match body with
              | None => Raise JSONDecodeError
              | Some data =>
                  aggregate (working_set today (default [] (list_ data)))
              end
     end).
Proof.
  unfold get_daily_weather.
  destruct (negb (truthy_opt (env !! "OPENWEATHER_API_KEY"))); [done |].
  unfold bind, Requests.get. fold (request_of env location).
  destruct (http (request_of env location)) as [e | status body]; [done |].
  unfold raise_for_status.
  destruct ((400 <=? status) && (status <? 600)); [done |].
  unfold ret, json. destruct body as [data |]; [| done].
  unfold ret, lift. by destruct (aggregate _).
Qed.

(** The call on an answer that carries no sample: the division of line 49
    raises. *)
Lemma get_daily_weather_no_samples env today location log status data :
  truthy_opt (env !! "OPENWEATHER_API_KEY") = true ->
  http (request_of env location) = Response status (Some data) ->
  (400 <=? status) && (status <? 600) = false ->
  default [] (list_ data) = [] ->
  get_daily_weather http env today location log
  = (log ++ [request_of env location], Raise ZeroDivisionError).
Proof.
  intros Hkey Hhttp Hstatus Hnil.
  rewrite get_daily_weather_unfold, Hkey, Hhttp, Hstatus, Hnil. done.
Qed.


End Facts.

(** ** Runs of the client *)

Definition sample_env : environ := {["OPENWEATHER_API_KEY" := "secret"]}.

Definition sample {number : Type} (dt : string) (t : number) (d : string)
    (p : option number) : entry number :=
  Entry (Some dt) (Some (MainObj (Some t))) (Some [WeatherObj (Some d)]) p.

(** The answer of the specification's scenario, with a sample of the next
    day added. *)
Definition sample_forecast : list (entry Q) :=
  [ sample "2024-05-01 09:00:00" 10%Q "clear sky" (Some (1 # 10)%Q);
    sample "2024-05-01 12:00:00" 12%Q "clear sky" (Some (3 # 10)%Q);
    sample "2024-05-02 09:00:00" 30%Q "rain" (Some (9 # 10)%Q) ].

Definition sample_http (rq : http_request) : http_response (forecast_json Q) :=
  Response 200 (Some (ForecastJson (Some sample_forecast))).

Example get_daily_weather_sample :
  snd (get_daily_weather sample_http sample_env "2024-05-01" "Oslo" [])
  = Ok (Summary (22 # 2) "clear sky" (3 # 10)).
Proof. vm_compute. reflexivity. Qed.

(** No sample of the day: the first sample of the list stands in. *)
Example get_daily_weather_fallback :
  working_set "2024-04-30" sample_forecast
  = [sample "2024-05-01 09:00:00" 10%Q "clear sky" (Some (1 # 10)%Q)]
  /\ snd (get_daily_weather sample_http sample_env "2024-04-30" "Oslo" [])
     = Ok (Summary (10 # 1) "clear sky" (1 # 10)).
Proof. split; vm_compute; reflexivity. Qed.

(** A tie between two labels: the one met first wins. *)
Example most_common_tie :
  first_key (most_common_1 (Counter ["rain"; "clear sky"; "clear sky"; "rain"]))
  = Ok "rain".
Proof. reflexivity. Qed.



(** An answer in binary floating point: samples of the day with the given
    temperatures and no [pop]. *)
Definition rounding_forecast (temps : list float) : list (entry float) :=
  map (fun t => sample "2024-05-01 09:00:00" t "mist" None) temps.

Definition rounding_http (temps : list float) (rq : http_request)
  : http_response (forecast_json float) :=
  Response 200 (Some (ForecastJson (Some (rounding_forecast temps)))).

(** In binary floating point the quotient is the mean up to rounding: the
    summary of two samples at 0.1 and 0.2 degrees is not at 0.15, and
    that of three samples at 0.1 is above 0.1. *)
#[warnings="-inexact-float"]
Example mean_is_rounded :
  snd (get_daily_weather (rounding_http [0.1; 0.2]%float) sample_env
         "2024-05-01" "Oslo" [])
  = Ok (Summary 0.15000000000000002%float "mist" 0%float)
  /\ snd (get_daily_weather (rounding_http [0.1; 0.1; 0.1]%float) sample_env
            "2024-05-01" "Oslo" [])
     = Ok (Summary 0.10000000000000002%float "mist" 0%float)
  /\ PrimFloat.ltb 0.1%float 0.10000000000000002%float = true.
Proof. repeat split; vm_compute; reflexivity. Qed.


Section NoSamples.

Context {number : Type} {arith : Numbers number}.

(** C1, the failing case.  The credential is set and the API answers 200
    with an empty [list]: no sample is dated today, the fall-back
    [list[:1]] is empty too, and the division by [len(temperatures)] of
    line 49 raises [ZeroDivisionError] instead of yielding a summary. *)
Theorem no_samples_raises_ZeroDivisionError :
  working_set "2024-05-01" (@nil (entry number)) = []
  /\ get_daily_weather
       (fun _ => Response 200 (Some (ForecastJson (Some (@nil (entry number))))))
       sample_env "2024-05-01" "Oslo" []
     = ([request_of sample_env "Oslo"], Raise ZeroDivisionError).
Proof.
  split; [reflexivity |].
  apply (get_daily_weather_no_samples _ sample_env "2024-05-01" "Oslo" []
           200 (ForecastJson (Some []))); reflexivity.
Qed.

(** The same when the answer has no [list] key at all. *)
Example missing_list_raises_ZeroDivisionError :
  snd (get_daily_weather
         (fun _ => Response 200 (Some (@ForecastJson number None)))
         sample_env "2024-05-01" "Oslo" [])
  = Raise ZeroDivisionError.
Proof. reflexivity. Qed.

End NoSamples.

End WeatherSpec.

(** * Properties of the sequence methods *)

Module TextSpec.

Import Text.

Lemma forallb_rev {A} (f : A -> bool) l : forallb f (rev l) = forallb f l.
Proof.
  induction l as [|a l IH]; simpl; [done |].
  rewrite forallb_app, IH. simpl. rewrite andb_true_r. apply andb_comm.
Qed.

Section Sequences.

Context {C : Type}.
Variable space : C -> bool.

Lemma lstrip_app x y :
  lstrip space (x ++ y)
  = match lstrip space x with
    | [] => lstrip space y
    | _ :: _ => lstrip space x ++ y
    end.
Proof.
  induction x as [|c x IH]; simpl; [done |].
  destruct (space c); [apply IH | done].
Qed.

Lemma lstrip_spaces ws : forallb space ws = true -> lstrip space ws = [].
Proof.
  induction ws as [|c ws IH]; simpl; [done |].
  destruct (space c); simpl; [apply IH | done].
Qed.

(** A sequence is its leading white space followed by what [lstrip]
    keeps. *)
Lemma lstrip_decompose s :
  exists ws, s = ws ++ lstrip space s /\ forallb space ws = true.
Proof.
  induction s as [|c s (ws & Hs & Hws)]; simpl.
  - by exists [].
  - destruct (space c) eqn:Hc.
    + exists (c :: ws). simpl. rewrite Hc, Hws. split; [by f_equal | done].
    + by exists [].
Qed.

Lemma rstrip_app_keep a b :
  rstrip space b <> [] -> rstrip space (a ++ b) = a ++ rstrip space b.
Proof.
  unfold rstrip. intros Hb. rewrite rev_app_distr, lstrip_app.
  destruct (lstrip space (rev b)) as [|c l] eqn:E; [done |].
  by rewrite rev_app_distr, rev_involutive.
Qed.

Lemma rstrip_app_drop a b :
  rstrip space b = [] -> rstrip space (a ++ b) = rstrip space a.
Proof.
  unfold rstrip. intros Hb. rewrite rev_app_distr, lstrip_app.
  destruct (lstrip space (rev b)) as [|c l] eqn:E; [done |].
  apply (f_equal (@length C)) in Hb. rewrite length_rev in Hb. done.
Qed.

Lemma rstrip_spaces ws : forallb space ws = true -> rstrip space ws = [].
Proof.
  intros Hws. unfold rstrip. rewrite lstrip_spaces; [done |].
  by rewrite forallb_rev.
Qed.

(** A sequence is what [rstrip] keeps followed by its trailing white
    space. *)
Lemma rstrip_decompose s :
  exists ws, s = rstrip space s ++ ws /\ forallb space ws = true.
Proof.
  destruct (lstrip_decompose (rev s)) as (ws & Hs & Hws).
  exists (rev ws). split; [| by rewrite forallb_rev].
  unfold rstrip. rewrite <- rev_app_distr, <- Hs. by rewrite rev_involutive.
Qed.

(** A word read so far: no white space in it. *)
Definition is_word (w : list C) : Prop := forallb (fun c => negb (space c)) w = true.

Lemma rstrip_word w : is_word w -> rstrip space w = w.
Proof.
  unfold is_word, rstrip. intros Hw.
  assert (H : lstrip space (rev w) = rev w).
  { rewrite <- forallb_rev in Hw. destruct (rev w) as [|c l]; simpl in *; [done |].
    destruct (space c); done. }
  by rewrite H, rev_involutive.
Qed.

(** ** [split] *)

Lemma split_from_spaces word ws :
  forallb space ws = true -> split_from space word ws = split_from space word [].
Proof.
  revert word. induction ws as [|c ws IH]; intros word; simpl; [done |].
  destruct (space c); simpl; [| done]. intros Hws.
  destruct word; rewrite (IH [] Hws); done.
Qed.

Lemma split_from_app_spaces word s ws :
  forallb space ws = true ->
  split_from space word (s ++ ws) = split_from space word s.
Proof.
  intros Hws. revert word. induction s as [|c s IH]; intros word; simpl.
  - by apply split_from_spaces.
  - destruct (space c); [| apply IH]. destruct word; by rewrite IH.
Qed.

Lemma split_lstrip s : split space (lstrip space s) = split space s.
Proof.
  unfold split. induction s as [|c s IH]; simpl; [done |].
  destruct (space c) eqn:Hc; [done |]. simpl. by rewrite Hc.
Qed.

Lemma split_rstrip s : split space (rstrip space s) = split space s.
Proof.
  destruct (rstrip_decompose s) as (ws & Hs & Hws).
  rewrite Hs at 2. unfold split. by rewrite split_from_app_spaces.
Qed.

(** [split] does not see the white space that [strip] removes. *)
Lemma split_strip s : split space (strip space s) = split space s.
Proof. unfold strip. by rewrite split_rstrip, split_lstrip. Qed.

(** The words that [split] returns are not empty. *)
Lemma split_from_words word s :
  Forall (fun w => w <> []) (split_from space word s).
Proof.
  revert word. induction s as [|c s IH]; intros word; simpl.
  - destruct word as [|c' w]; [constructor |].
    constructor; [| constructor]. simpl. by destruct (rev w).
  - destruct (space c); [| apply IH].
    destruct word as [|c' w]; [apply IH |].
    constructor; [| apply IH]. simpl. by destruct (rev w).
Qed.

Lemma join_nonempty (sep w : list C) ws : w <> [] -> join sep (w :: ws) <> [].
Proof. destruct w, ws; done. Qed.

(** ** [collapse_runs] *)

Variable sp : C.
Hypothesis sp_space : space sp = true.

Lemma lstrip_collapse_in_run s :
  lstrip space (collapse_runs_from space sp true s)
  = collapse_runs_from space sp true s.
Proof.
  induction s as [|c s IH]; simpl; [done |].
  destruct (space c) eqn:Hc; [done |]. simpl. by rewrite Hc.
Qed.

Lemma lstrip_collapse s :
  lstrip space (collapse_runs space sp s) = collapse_runs_from space sp true s.
Proof.
  unfold collapse_runs. destruct s as [|c s]; simpl; [done |].
  destruct (space c) eqn:Hc; simpl.
  - rewrite sp_space. apply lstrip_collapse_in_run.
  - by rewrite Hc.
Qed.

(** The words of [s], joined by [sp], are [s] with its runs of white space
    collapsed and without the white space at its end. *)
Lemma join_split_from word s :
  is_word word ->
  join [sp] (split_from space word s)
  = rstrip space
      (rev word ++
       collapse_runs_from space sp (match word with [] => true | _ => false end) s).
Proof.
  revert word. induction s as [|c s IH]; intros word Hword.
  - simpl. rewrite app_nil_r, rstrip_word by (unfold is_word; by rewrite forallb_rev).
    by destruct word.
  - simpl. destruct (space c) eqn:Hc.
    + specialize (IH [] eq_refl). simpl in IH.
      destruct word as [|c' w]; [done |].
      set (run := collapse_runs_from space sp true s) in *.
      assert (Hw : rstrip space (rev (c' :: w)) = rev (c' :: w)).
      { apply rstrip_word. unfold is_word. by rewrite forallb_rev. }
      destruct (split_from space [] s) as [|w1 ws] eqn:Es.
      * change (sp :: run) with ([sp] ++ run).
        rewrite (rstrip_app_drop (rev (c' :: w))); [done |].
        rewrite rstrip_app_drop by done. apply rstrip_spaces. simpl. by rewrite sp_space.
      * assert (Hne : rstrip space run <> []).
        { rewrite <- IH. apply join_nonempty.
          pose proof (split_from_words [] s) as Hall. rewrite Es in Hall.
          by apply Forall_cons in Hall as [? _]. }
        change (rev (c' :: w) ++ sp :: run) with (rev (c' :: w) ++ [sp] ++ run).
        rewrite app_assoc, rstrip_app_keep by done.
        rewrite <- IH, <- app_assoc. done.
    + rewrite IH.
      * simpl. by rewrite <- app_assoc.
      * unfold is_word in *. simpl. by rewrite Hc.
Qed.

(** The refinement: what the code computes, [sp.join(s.strip().split())],
    is what the specification words, [s] with its runs of white space
    collapsed to [sp] and trimmed. *)
Lemma join_split_strip s :
  join [sp] (split space (strip space s)) = collapsed_and_trimmed space sp s.
Proof.
  rewrite split_strip. unfold split.
  rewrite (join_split_from [] s eq_refl). simpl.
  unfold collapsed_and_trimmed, strip. by rewrite lstrip_collapse.
Qed.

End Sequences.

End TextSpec.

(** * Properties of email_fetcher.py *)

Module MailSpec.

Import Mail.

Lemma isspace_SPACE : isspace 32 = true.
Proof. reflexivity. Qed.


Example snippet_of_text_example :
  snippet_of_text [32; 9; 72; 105; 32; 10; 13; 116; 104; 101; 114; 101; 12288; 33; 32]%N
  = [72; 105; 32; 116; 104; 101; 114; 101; 32; 33]%N.
Proof. reflexivity. Qed.

Section Facts.

Variable decode : string -> bytes -> option str.
Variable message_from_bytes : bytes -> message.
Variable server : list imap_cmd -> imap_reply.

(** The text of a multipart message is that of the first part, in the order
    of [walk], that is plain text and not an attachment. *)
Lemma first_plain_text_found before part after :
  Forall (fun p => is_plain_inline p = false) before ->
  is_plain_inline part = true ->
  first_plain_text decode (before ++ part :: after)
  = decode_replace decode (or_utf8 (content_charset (headers_of part)))
      (get_payload_decoded part).
Proof.
  intros Hbefore Hpart. induction Hbefore as [|p before Hp _ IH]; simpl.
  - by rewrite Hpart.
  - by rewrite Hp.
Qed.

Lemma first_plain_text_none parts :
  Forall (fun p => is_plain_inline p = false) parts ->
  first_plain_text decode parts = Ok [].
Proof.
  intros Hparts. induction Hparts as [|p parts Hp _ IH]; simpl; [done |].
  by rewrite Hp.
Qed.






(** ** The session *)

Lemma bind_command {B} log c status data (k : string * list imap_item -> M imap_cmd B) :
  server (log ++ [c]) = Reply status data ->
  bind (command server c) k log = k (status, data) (log ++ [c]).
Proof. unfold bind, command. by intros ->. Qed.

(** The pair that the loop body makes of the data of a fetch reply. *)
Definition extracted (msg_data : list imap_item) : result (str * str) :=
  match raw_message msg_data with
  | Raise e => Raise e
  | Ok raw =>
      let msg := message_from_bytes raw in
      match decode_subject decode msg with
      | Raise e => Raise e
      | Ok subject =>
          match _extract_snippet decode msg with
          | Raise e => Raise e
          | Ok snippet => Ok (subject, snippet)
          end
      end
  end.

Abbreviation loop := (fetch_loop decode message_from_bytes server).

(** A fetch that is answered with a status other than OK: the message is
    skipped and the loop goes on with the messages collected so far. *)
Lemma fetch_loop_skip mark num rest messages log status data :
  server (log ++ [Fetch num "(RFC822)"]) = Reply status data ->
  is_ok status = false ->
  loop mark (num :: rest) messages log
  = loop mark rest messages (log ++ [Fetch num "(RFC822)"]).
Proof.
  intros Hreply Hstatus. cbn [fetch_loop].
  rewrite (bind_command _ _ _ _ _ Hreply). cbn [fst]. by rewrite Hstatus.
Qed.

(** A fetch that is answered OK: the pair is appended, the message is
    flagged when asked for, and the loop goes on. *)
Lemma fetch_loop_keep mark num rest messages log status data pair :
  server (log ++ [Fetch num "(RFC822)"]) = Reply status data ->
  is_ok status = true ->
  extracted data = Ok pair ->
  (forall h, exists st d, server (h ++ [Store num "+FLAGS" "\Seen"]) = Reply st d) ->
  loop mark (num :: rest) messages log
  = loop mark rest (messages ++ [pair])
      (log ++ [Fetch num "(RFC822)"]
           ++ (if mark then [Store num "+FLAGS" "\Seen"] else [])).
Proof.
  intros Hreply Hstatus Hpair Hstore. cbn [fetch_loop].
  rewrite (bind_command _ _ _ _ _ Hreply). cbn [fst snd negb].
  rewrite Hstatus. cbn [negb].
  unfold extracted in Hpair.
  destruct (raw_message data) as [raw | e]; [| done].
  cbn [lift]. rewrite bind_ret.
  destruct (decode_subject decode (message_from_bytes raw)) as [subject | e]; [| done].
  cbn [lift]. rewrite bind_ret.
  destruct (_extract_snippet decode (message_from_bytes raw)) as [snippet | e]; [| done].
  cbn [lift]. rewrite bind_ret.
  injection Hpair as <-.
  destruct mark.
  - destruct (Hstore (log ++ [Fetch num "(RFC822)"])) as (st & d & Hst).
    rewrite bind_bind, (bind_command _ _ _ _ _ Hst), !bind_ret.
    by rewrite <- app_assoc.
  - rewrite bind_ret. by rewrite app_nil_r.
Qed.

(** The loop, for a server whose answer to a fetch depends on the message
    number only and which accepts every flag update: the pairs of the
    messages whose fetch is answered OK, in order. *)
Lemma fetch_loop_result mark (replies : bytes -> string * list imap_item)
    (pairs : bytes -> str * str) nums messages log :
  (forall h num,
     server (h ++ [Fetch num "(RFC822)"]) = Reply (replies num).1 (replies num).2) ->
  (forall h num, exists st d, server (h ++ [Store num "+FLAGS" "\Seen"]) = Reply st d) ->
  (forall num, num ∈ nums -> is_ok (replies num).1 = true ->
               extracted (replies num).2 = Ok (pairs num)) ->
  exists log',
    loop mark nums messages log
    = (log', Ok (messages
                 ++ map pairs (filter (fun num => is_ok (replies num).1 = true) nums))).
Proof.
  intros Hfetch Hstore. revert messages log.
  induction nums as [|num nums IH]; intros messages log Hpairs.
  - exists log. simpl. by rewrite app_nil_r.
  - assert (Hrest : forall n, n ∈ nums -> is_ok (replies n).1 = true ->
                              extracted (replies n).2 = Ok (pairs n)).
    { intros n Hn. apply Hpairs. by right. }
    destruct (is_ok (replies num).1) eqn:Hok.
    + rewrite (fetch_loop_keep mark num nums messages log _ _ (pairs num)
                 (Hfetch log num) Hok); [| apply Hpairs; [by left | done] | done].
      destruct (IH (messages ++ [pairs num])
                  (log ++ [Fetch num "(RFC822)"]
                       ++ (if mark then [Store num "+FLAGS" "\Seen"] else []))
                  Hrest) as [log' ->].
      exists log'. rewrite filter_cons_True by done. simpl.
      by rewrite <- app_assoc.
    + rewrite (fetch_loop_skip mark num nums messages log _ _ (Hfetch log num) Hok).
      destruct (IH messages (log ++ [Fetch num "(RFC822)"]) Hrest) as [log' ->].
      exists log'. rewrite filter_cons_False; [done |]. by rewrite Hok.
Qed.

(** The commands other than the two queries. *)
Definition is_query (c : imap_cmd) : bool :=
  match c with
  | Search _ | Fetch _ _ => true
  | _ => false
  end.

(** The clean-up of [fetch_unread] on a server that answers it. *)
Lemma release_returns log :
  (forall h c, is_query c = false -> exists st d, server (h ++ [c]) = Reply st d) ->
  try_finally (bind (command server Close) (fun _ => ret tt))
              (bind (command server Logout) (fun _ => ret tt)) log
  = (log ++ [Close; Logout], Ok tt).
Proof.
  intros Hquiet.
  destruct (Hquiet log Close eq_refl) as (st1 & d1 & H1).
  destruct (Hquiet (log ++ [Close]) Logout eq_refl) as (st2 & d2 & H2).
  erewrite try_finally_returns;
    [| rewrite (bind_command _ _ _ _ _ H1); reflexivity
     | rewrite (bind_command _ _ _ _ _ H2); reflexivity].
  by rewrite <- app_assoc.
Qed.

(** C9.  On a server that answers every command (no transport failure),
    whose answer to a search is [(status, data)] and whose answer to the
    fetch of a message depends on the message only: when the search status
    is not OK the call returns the empty list; when it is OK, the call
    returns the (subject, snippet) pairs of exactly the messages whose
    fetch status is OK, in the order of the search result, the others
    being skipped. *)
Theorem fetch_unread_partial_results host username password mailbox
    mark_as_read exclude_promotions status data replies pairs :
  (forall h c, is_query c = false -> exists st d, server (h ++ [c]) = Reply st d) ->
  (forall h criteria, server (h ++ [Search criteria]) = Reply status data) ->
  (forall h num,
     server (h ++ [Fetch num "(RFC822)"]) = Reply (replies num).1 (replies num).2) ->
  let outcome :=
    snd (fetch_unread decode message_from_bytes server host username password
           mailbox mark_as_read exclude_promotions []) in
  (status <> "OK" -> outcome = Ok [])
  /\ (forall nums,
        status = "OK" ->
        message_numbers data = Ok nums ->
        (forall num, num ∈ nums -> (replies num).1 = "OK" ->
                     extracted (replies num).2 = Ok (pairs num)) ->
        outcome = Ok (map pairs (filter (fun num => (replies num).1 = "OK") nums))).
Proof.
  intros Hquiet Hsearch Hfetch outcome.
  assert (Hstore : forall h num, exists st d,
             server (h ++ [Store num "+FLAGS" "\Seen"]) = Reply st d)
    by (intros h num; by apply Hquiet).
  assert (Hrun : forall r,
    (forall log, exists log1,
       (if negb (is_ok status) then ret []
        else bind (lift (message_numbers data))
               (fun nums => loop mark_as_read nums [])) log = (log1, r)) ->
    outcome = r).
  { intros r Hbody. unfold outcome, fetch_unread.
    destruct (Hquiet [] (Connect host) eq_refl) as (st0 & d0 & H0).
    rewrite (bind_command _ _ _ _ _ H0).
    set (l0 := [] ++ [Connect host]).
    destruct (Hquiet l0 (Login username password) eq_refl) as (st1 & d1 & H1).
    destruct (Hquiet (l0 ++ [Login username password]) (Select mailbox) eq_refl)
      as (st2 & d2 & H2).
    set (l2 := (l0 ++ [Login username password]) ++ [Select mailbox]) in *.
    set (criteria := if exclude_promotions
                     then ["X-GM-RAW"; "category:primary"; "UNSEEN"]
                     else ["UNSEEN"]).
    destruct (Hbody (l2 ++ [Search criteria])) as [log1 Hlog1].
    erewrite try_finally_returns; [done | | by apply release_returns].
    rewrite (bind_command _ _ _ _ _ H1), (bind_command _ _ _ _ _ H2).
    replace (if exclude_promotions
             then command server (Search ["X-GM-RAW"; "category:primary"; "UNSEEN"])
             else command server (Search ["UNSEEN"]))
      with (command server (Search criteria)) by (by destruct exclude_promotions).
    rewrite (bind_command _ _ _ _ _ (Hsearch l2 criteria)). cbn [fst snd].
    exact Hlog1. }
  split.
  - intros Hstatus. apply Hrun. intros log. exists log.
    assert (is_ok status = false) as ->; [| done].
    unfold is_ok. by apply String.eqb_neq.
  - intros nums -> Hnums Hpairs. apply Hrun. intros log.
    change (is_ok "OK") with true. cbn [negb]. rewrite Hnums. cbn [lift].
    rewrite bind_ret.
    destruct (fetch_loop_result mark_as_read replies pairs nums [] log Hfetch Hstore)
      as [log1 Hloop].
    { intros num Hin Hok. apply Hpairs; [done |]. by apply String.eqb_eq. }
    exists log1. rewrite Hloop. simpl. f_equal. f_equal. f_equal.
    apply list_filter_iff. intros num. unfold is_ok. apply String.eqb_eq.
Qed.

End Facts.

(** ** Runs of the fetcher *)

(** A codec that takes every byte for the character of the same number. *)
Definition latin1 (charset : string) (b : bytes) : option str :=
  Some (map Byte.to_N b).

(** A parser for messages that are one plain-text part and nothing else;
    the subject repeats the text. *)
Definition plain_message (raw : bytes) : message :=
  Single (Headers (SubjectStr (map Byte.to_N raw)) "text/plain" None None)
         (PayloadBytes raw).

Definition long_body : bytes := repeat Byte.x61 120.

Example long_body_snippet :
  _extract_snippet latin1 (plain_message long_body) = Ok (repeat 97%N 100).
Proof. vm_compute. reflexivity. Qed.

(** A multipart message: the attachment and the HTML part are passed
    over. *)
Example multipart_snippet :
  let part ct disposition text :=
    Single (Headers (SubjectStr []) ct disposition None) (PayloadBytes text) in
  _extract_snippet latin1
    (Multipart (Headers (SubjectStr []) "multipart/mixed" None None)
       [ part "text/plain" (Some "attachment") [Byte.x78];
         Multipart (Headers (SubjectStr []) "multipart/alternative" None None)
           [ part "text/html" None [Byte.x3c; Byte.x70; Byte.x3e];
             part "text/plain" None [Byte.x20; Byte.x6f; Byte.x0a; Byte.x0a; Byte.x6b] ] ])
  = Ok [111; 32; 107]%N.
Proof. vm_compute. reflexivity. Qed.


(** A mailbox with three unread messages, numbered 1, 2 and 3; the fetch of
    message 2 is refused. *)
Definition sample_replies (num : bytes) : string * list imap_item :=
  match num with
  | [Byte.x32] => ("NO", [])
  | _ => ("OK", [ItemPair [] (Byte.x6d :: Byte.x20 :: num)])
  end.

Definition sample_server (search_status : string) (h : list imap_cmd) : imap_reply :=
  match last h with
  | Some (Search _) =>
      Reply search_status [ItemBytes [Byte.x31; Byte.x20; Byte.x32; Byte.x20; Byte.x33]]
  | Some (Fetch num _) => Reply (sample_replies num).1 (sample_replies num).2
  | _ => Reply "OK" []
  end.

Definition sample_pairs (num : bytes) : str * str :=
  (109%N :: 32%N :: map Byte.to_N num, 109%N :: 32%N :: map Byte.to_N num).

Example fetch_unread_sample :
  fetch_unread latin1 plain_message (sample_server "OK")
    "imap.example.org" "user" "password" "INBOX" true false []
  = ([ Connect "imap.example.org"; Login "user" "password"; Select "INBOX";
       Search ["UNSEEN"];
       Fetch [Byte.x31] "(RFC822)"; Store [Byte.x31] "+FLAGS" "\Seen";
       Fetch [Byte.x32] "(RFC822)";
       Fetch [Byte.x33] "(RFC822)"; Store [Byte.x33] "+FLAGS" "\Seen";
       Close; Logout ],
     Ok [sample_pairs [Byte.x31]; sample_pairs [Byte.x33]]).
Proof. vm_compute. reflexivity. Qed.

(** A search that is refused: nothing is fetched, the session is released,
    the result is empty. *)
Example fetch_unread_search_refused :
  fetch_unread latin1 plain_message (sample_server "NO")
    "imap.example.org" "user" "password" "INBOX" false true []
  = ([ Connect "imap.example.org"; Login "user" "password"; Select "INBOX";
       Search ["X-GM-RAW"; "category:primary"; "UNSEEN"];
       Close; Logout ],
     Ok []).
Proof. vm_compute. reflexivity. Qed.

Lemma sample_server_quiet status h c :
  is_query c = false -> exists st d, sample_server status (h ++ [c]) = Reply st d.
Proof.
  intros Hc. unfold sample_server. rewrite last_snoc.
  destruct c; try discriminate Hc; eauto.
Qed.

Lemma sample_server_search status h criteria :
  sample_server status (h ++ [Search criteria])
  = Reply status [ItemBytes [Byte.x31; Byte.x20; Byte.x32; Byte.x20; Byte.x33]].
Proof. unfold sample_server. by rewrite last_snoc. Qed.

Lemma sample_server_fetch status h num :
  sample_server status (h ++ [Fetch num "(RFC822)"])
  = Reply (sample_replies num).1 (sample_replies num).2.
Proof. unfold sample_server. by rewrite last_snoc. Qed.

Lemma sample_extracted num :
  num ∈ [[Byte.x31]; [Byte.x32]; [Byte.x33]] ->
  (sample_replies num).1 = "OK" ->
  extracted latin1 plain_message (sample_replies num).2 = Ok (sample_pairs num).
Proof.
  rewrite !elem_of_cons, elem_of_nil.
  intros [-> | [-> | [-> | []]]]; [reflexivity | discriminate | reflexivity].
Qed.

(** The two runs above, through the theorem of C9. *)
Lemma fetch_unread_partial_results_witness :
  snd (fetch_unread latin1 plain_message (sample_server "NO")
         "imap.example.org" "user" "password" "INBOX" false false [])
  = Ok []
  /\ snd (fetch_unread latin1 plain_message (sample_server "OK")
            "imap.example.org" "user" "password" "INBOX" true false [])
     = Ok [sample_pairs [Byte.x31]; sample_pairs [Byte.x33]].
Proof.
  split.
  - apply (proj1 (fetch_unread_partial_results latin1 plain_message
                    (sample_server "NO")
                    "imap.example.org" "user" "password" "INBOX" false false
                    "NO" _ sample_replies sample_pairs
                    (sample_server_quiet "NO") (sample_server_search "NO")
                    (sample_server_fetch "NO"))).
    discriminate.
  - apply (proj2 (fetch_unread_partial_results latin1 plain_message
                    (sample_server "OK")
                    "imap.example.org" "user" "password" "INBOX" true false
                    "OK" _ sample_replies sample_pairs
                    (sample_server_quiet "OK") (sample_server_search "OK")
                    (sample_server_fetch "OK"))
                 [[Byte.x31]; [Byte.x32]; [Byte.x33]] eq_refl eq_refl).
    apply sample_extracted.
Defined.

End MailSpec.

(** * Properties of summary_mailer.py *)

Module MailerSpec.

Import Mailer.

(** ** The text body *)

Lemma append_cons x (a b : string) : String x a +:+ b = String x (a +:+ b).
Proof. reflexivity. Qed.

Lemma append_assoc (a b c : string) : (a +:+ b) +:+ c = a +:+ (b +:+ c).
Proof. induction a as [|x a IH]; [done | by rewrite !append_cons, IH]. Qed.

Lemma append_empty_r (a : string) : a +:+ "" = a.
Proof. induction a as [|x a IH]; [done | by rewrite append_cons, IH]. Qed.

(** ["".join(parts)] is the concatenation of the parts. *)
Lemma join_empty_cons (p : string) parts :
  Py.join "" (p :: parts) = p +:+ Py.join "" parts.
Proof. destruct parts; simpl; [by rewrite append_empty_r | done]. Qed.

Lemma join_empty_app (l1 l2 : list string) :
  Py.join "" (l1 ++ l2) = Py.join "" l1 +:+ Py.join "" l2.
Proof.
  induction l1 as [|p l1 IH]; [done |].
  rewrite <- app_comm_cons, !join_empty_cons, IH. by rewrite append_assoc.
Qed.

(** A text given by its lines: each line is ended by a line feed, so an
    empty line among them shows as a blank line. *)
Definition unlines (lines : list string) : string :=
  Py.join "" (map (fun l => l +:+ NL) lines).

(** The lines of the text body, as the specification lists them: the
    header, then the three sections, each introduced by its title and
    separated from what precedes by a blank line; every headline and every
    item makes one line that starts with a dash and a space. *)
Definition text_lines (email_items : list string) (weather : string)
    (headlines : list string) : list string :=
  ["Daily Summary"]
  ++ [""] ++ ["Weather:"; weather]
  ++ [""] ++ ("Headlines:" :: map (fun h => "- " +:+ h) headlines)
  ++ [""] ++ ("Items:" :: map (fun item => "- " +:+ item) email_items).

Lemma unlines_cons l lines : unlines (l :: lines) = l +:+ NL +:+ unlines lines.
Proof. unfold unlines. simpl map. by rewrite join_empty_cons, append_assoc. Qed.

Lemma unlines_app l1 l2 : unlines (l1 ++ l2) = unlines l1 +:+ unlines l2.
Proof. unfold unlines. by rewrite map_app, join_empty_app. Qed.

Lemma unlines_bullets xs :
  unlines (map (fun x => "- " +:+ x) xs) = Py.join "" (map bullet xs).
Proof.
  unfold unlines. rewrite map_map. reflexivity.
Qed.

Lemma build_body_text email_items weather headlines :
  fst (build_body email_items weather headlines)
  = unlines (text_lines email_items weather headlines).
Proof.
  unfold build_body, text_lines. cbn [fst].
  rewrite !unlines_app, !unlines_cons, !unlines_bullets.
  change (unlines []) with "". rewrite !append_empty_r.
  rewrite !append_assoc. reflexivity.
Qed.

Lemma build_body_html email_items weather headlines :
  snd (build_body email_items weather headlines)
  = "<html><body><h1>Daily Summary</h1>"
    +:+ "<h2>Weather</h2><p>" +:+ weather +:+ "</p>"
    +:+ "<h2>Headlines</h2><ul>" +:+ Py.join "" (map li headlines) +:+ "</ul>"
    +:+ "<h2>Items</h2><ul>" +:+ Py.join "" (map li email_items) +:+ "</ul>"
    +:+ "</body></html>".
Proof.
  unfold build_body. cbn [snd]. rewrite !append_assoc. reflexivity.
Qed.

(** C6.  [build_body] is a function of its three arguments: equal
    arguments give equal text and equal HTML.  Its text is made of the
    lines [text_lines]: the section titles Weather, Headlines and Items
    occur in this order, a blank line separates each section from what
    precedes, and each headline and each item is one line with the prefix
    ["- "]. *)
Theorem build_body_deterministic_layout email_items weather headlines :
  (forall email_items' weather' headlines',
      email_items' = email_items -> weather' = weather -> headlines' = headlines ->
      fst (build_body email_items' weather' headlines')
      = fst (build_body email_items weather headlines)
      /\ snd (build_body email_items' weather' headlines')
         = snd (build_body email_items weather headlines))
  /\ fst (build_body email_items weather headlines)
     = unlines (text_lines email_items weather headlines)
  /\ (exists a b c d,
        fst (build_body email_items weather headlines)
        = a +:+ "Weather:" +:+ b +:+ "Headlines:" +:+ c +:+ "Items:" +:+ d).
Proof.
  split; [| split].
  - intros ? ? ? -> -> ->. done.
  - apply build_body_text.
  - exists ("Daily Summary" +:+ NL +:+ NL),
           (NL +:+ weather +:+ NL +:+ NL),
           (NL +:+ Py.join "" (map bullet headlines) +:+ NL),
           (NL +:+ Py.join "" (map bullet email_items)).
    unfold build_body. cbn [fst]. rewrite !append_assoc. reflexivity.
Qed.

(** The text of a digest with one headline and one item. *)
Lemma build_body_deterministic_layout_witness :
  fst (build_body ["Invoice #1 Please pay by Friday"] "11.0 C, clear sky"
         ["Rocq 9.3 released"])
  = "Daily Summary" +:+ NL +:+ NL
    +:+ "Weather:" +:+ NL +:+ "11.0 C, clear sky" +:+ NL +:+ NL
    +:+ "Headlines:" +:+ NL +:+ "- Rocq 9.3 released" +:+ NL +:+ NL
    +:+ "Items:" +:+ NL +:+ "- Invoice #1 Please pay by Friday" +:+ NL.
Proof.
  exact (proj1 (proj2 (build_body_deterministic_layout
                         ["Invoice #1 Please pay by Friday"] "11.0 C, clear sky"
                         ["Rocq 9.3 released"]))).
Defined.

(** ** The dispatcher *)

Lemma int_raises s e : int s = Raise e -> exists msg, e = ValueError msg.
Proof.
  unfold int.
  destruct (match Text.strip int_space (list_ascii_of_string s) with
            | [] => _ | c :: ds => _ end) as [sign unsigned].
  destruct (digit_run unsigned) as [run tail].
  destruct (digits_value 0 false run); [| intros [= <-]; eauto].
  destruct (_ <? _)%nat; [intros [= <-]; eauto |].
  destruct tail; [done | intros [= <-]; eauto].
Qed.

(** The separator U+001C is no blank for [int], the no-break space U+00A0
    is one. *)
Example int_examples :
  int "587" = Ok 587 /\ int " 2_525 " = Ok 2525 /\ int "-1" = Ok (-1)
  /\ int "+025" = Ok 25
  /\ int (String "160" "587") = Ok 587
  /\ int (String "028" "587") = Raise (ValueError "invalid literal for int() with base 10")
  /\ int "" = Raise (ValueError "invalid literal for int() with base 10")
  /\ int "25a" = Raise (ValueError "invalid literal for int() with base 10")
  /\ int "- 1" = Raise (ValueError "invalid literal for int() with base 10")
  /\ int "_1" = Raise (ValueError "invalid literal for int() with base 10")
  /\ int "1_" = Raise (ValueError "invalid literal for int() with base 10")
  /\ int "1__0" = Raise (ValueError "invalid literal for int() with base 10").
Proof. repeat split; reflexivity. Qed.

(** A literal of 4301 digits is refused, one of 4300 is read. *)
Example int_digit_limit :
  int (string_of_list_ascii (repeat "0"%char 4301))
  = Raise (ValueError "Exceeds the limit (4300 digits) for integer string conversion")
  /\ int (string_of_list_ascii (repeat "0"%char 4300)) = Ok 0.
Proof. split; vm_compute; reflexivity. Qed.

(** The settings whose absence the check of line 76 detects. *)
Definition required : list string :=
  ["SMTP_HOST"; "SMTP_USER"; "SMTP_PASSWORD"; "EMAIL_FROM"; "EMAIL_TO"].

Section Facts.

Variable smtp : list smtp_cmd -> option exn.
Variable as_string : mime_message -> result string.

(** When one of the five settings is absent (or empty), the call raises
    [ValueError] and the session log is left as it was. *)
Lemma missing_setting_raises env email_items weather headlines log key :
  key ∈ required ->
  truthy_opt (env !! key) = false ->
  exists msg,
    send_summary_email smtp as_string env email_items weather headlines log
    = (log, Raise (ValueError msg)).
Proof.
  intros Hkey Hmissing. unfold send_summary_email.
  destruct (int (default "587" (env !! "SMTP_PORT"))) as [port | e] eqn:Hport.
  - cbn [lift]. rewrite bind_ret.
    assert (all_truthy [env !! "SMTP_HOST"; env !! "SMTP_USER";
                        env !! "SMTP_PASSWORD"; env !! "EMAIL_FROM";
                        env !! "EMAIL_TO"] = false) as ->.
    { unfold required in Hkey. unfold all_truthy. cbn [forallb].
      repeat (apply elem_of_cons in Hkey as [-> | Hkey];
              [rewrite Hmissing; by rewrite ?andb_false_r |]).
      by apply elem_of_nil in Hkey. }
    eexists. reflexivity.
  - destruct (int_raises _ _ Hport) as [msg ->]. exists msg. reflexivity.
Qed.

(** With the five settings present, an absent port is not an error: the
    session is opened on port 587. *)
Lemma absent_port_defaults env email_items weather headlines log :
  env !! "SMTP_PORT" = None ->
  Forall (fun key => truthy_opt (env !! key) = true) required ->
  exists rest outcome,
    send_summary_email smtp as_string env email_items weather headlines log
    = (log ++ SmtpConnect (default "" (env !! "SMTP_HOST")) 587 :: rest, outcome).
Proof.
  intros Hport Hall. unfold send_summary_email. rewrite Hport.
  change (int (default "587" None)) with (@Ok Z 587). cbn [lift]. rewrite bind_ret.
  unfold required in Hall.
  repeat (apply Forall_cons in Hall as [? Hall]).
  assert (all_truthy [env !! "SMTP_HOST"; env !! "SMTP_USER";
                      env !! "SMTP_PASSWORD"; env !! "EMAIL_FROM";
                      env !! "EMAIL_TO"] = true) as ->.
  { unfold all_truthy. cbn [forallb]. by repeat (apply andb_true_intro; split). }
  cbn [negb]. destruct (build_body email_items weather headlines) as [text html].
  unfold with_smtp, bind at 1, command at 1.
  destruct (smtp _) as [e |].
  - exists [], (Raise e). done.
  - match goal with
    | |- context [try_finally ?b ?f ?l] => destruct (try_finally b f l) as [log' r] eqn:E
    end.
    assert (exists rest, log' = (log ++ [SmtpConnect (default "" (env !! "SMTP_HOST")) 587]) ++ rest)
      as [rest ->].
    { revert E. unfold try_finally, bind, command, smtp_exit.
      destruct (as_string _); cbn [lift ret raise];
      repeat match goal with
             | |- context [smtp ?l] => destruct (smtp l) as [[] |]
             end; intros [= <- <-]; eexists; rewrite <- ?app_assoc; reflexivity. }
    exists rest, r. by rewrite <- app_assoc.
Qed.

(** C2.  When one of the host, user, password, from-address or to-address
    settings is absent (or empty), the call raises [ValueError] and the
    session log is left as it was: no transport session has been opened.
    For the sixth setting that the docstring of [send_summary_email]
    lists as required, the port, the code does not do so: when it is
    absent and the five others are present, no configuration error is
    raised and a session is opened, on port 587. *)
Theorem missing_setting_raises_before_session env email_items weather headlines log :
  (forall key,
      key ∈ required ->
      truthy_opt (env !! key) = false ->
      exists msg,
        send_summary_email smtp as_string env email_items weather headlines log
        = (log, Raise (ValueError msg)))
  /\ (env !! "SMTP_PORT" = None ->
      Forall (fun key => truthy_opt (env !! key) = true) required ->
      exists rest outcome,
        send_summary_email smtp as_string env email_items weather headlines log
        = (log ++ SmtpConnect (default "" (env !! "SMTP_HOST")) 587 :: rest,
           outcome)).
Proof.
  split.
  - intros key. apply missing_setting_raises.
  - apply absent_port_defaults.
Qed.

End Facts.

(** ** Runs of the dispatcher *)

Definition env_without_port : environ :=
  list_to_map [ ("SMTP_HOST", "smtp.example.org"); ("SMTP_USER", "digest");
                ("SMTP_PASSWORD", "secret"); ("EMAIL_FROM", "digest@example.org");
                ("EMAIL_TO", "reader@example.org") ].

(** A transport that accepts everything. *)
Definition willing_smtp (h : list smtp_cmd) : option exn := None.

(** A serialisation for the runs below: the three headers, a blank line
    and the parts one after the other.  What [as_string] writes besides
    (the MIME headers and the boundaries between the parts) plays no part
    in these runs. *)
Definition flat_as_string (msg : mime_message) : result string :=
  Ok ("Subject: " +:+ mime_subject msg +:+ NL
      +:+ "From: " +:+ mime_from msg +:+ NL
      +:+ "To: " +:+ mime_to msg +:+ NL +:+ NL
      +:+ Py.join NL (map fst (mime_parts msg))).

(** No to-address: the error is raised on an empty session log.  No port,
    the five other settings given: a session is opened on port 587. *)
Lemma missing_setting_raises_before_session_witness :
  (exists msg,
     send_summary_email willing_smtp flat_as_string
       (delete "EMAIL_TO" env_without_port)
       ["Invoice #1"] "11.0 C, clear sky" ["Rocq 9.3 released"] []
     = ([], Raise (ValueError msg)))
  /\ (exists rest outcome,
        send_summary_email willing_smtp flat_as_string env_without_port
          ["Invoice #1"] "11.0 C, clear sky" ["Rocq 9.3 released"] []
        = ([] ++ SmtpConnect "smtp.example.org" 587 :: rest, outcome)).
Proof.
  split.
  - apply (proj1 (missing_setting_raises_before_session willing_smtp flat_as_string
                    (delete "EMAIL_TO" env_without_port)
                    ["Invoice #1"] "11.0 C, clear sky" ["Rocq 9.3 released"] [])
                 "EMAIL_TO").
    + unfold required. do 4 apply list_elem_of_further. apply list_elem_of_here.
    + reflexivity.
  - apply (proj2 (missing_setting_raises_before_session willing_smtp flat_as_string
                    env_without_port
                    ["Invoice #1"] "11.0 C, clear sky" ["Rocq 9.3 released"] [])).
    + reflexivity.
    + unfold required. repeat constructor.
Defined.

(** The whole run without the port setting: the call raises nothing,
    opens a session on port 587 and sends the digest. *)
Example absent_port_opens_session :
  env_without_port !! "SMTP_PORT" = None
  /\ exists text,
       send_summary_email willing_smtp flat_as_string env_without_port
         ["Invoice #1"] "11.0 C, clear sky" ["Rocq 9.3 released"] []
       = ([ SmtpConnect "smtp.example.org" 587; Starttls;
            SmtpLogin "digest" "secret";
            Sendmail "digest@example.org" ["reader@example.org"] text;
            Quit ],
          Ok tt).
Proof. split; [reflexivity |]. eexists. vm_compute. reflexivity. Qed.

(** A port that is set but is not a number is an error of [int], raised
    before the check, and before any session as well. *)
Example malformed_port :
  send_summary_email willing_smtp flat_as_string
    (<["SMTP_PORT" := "smtp"]> env_without_port) [] "" [] []
  = ([], Raise (ValueError "invalid literal for int() with base 10")).
Proof. vm_compute. reflexivity. Qed.

End MailerSpec.

(** * Further properties of news_client.py *)

Module NewsFacts.

Import News NewsSpec.

Section Facts.

Variable http : http_request -> http_response news_json.

(** X1.  Once the credential and a selector are there, every failure of
    the request surfaces as an exception after exactly one request: the
    transport's own exception, [HTTPError] for a status from 400 to 599,
    the decoding error for a body that is not JSON.  No list is returned
    and the request is not repeated. *)
Theorem headlines_request_failure_is_raised env kw cat limit log :
  truthy_opt (env !! "NEWS_API_KEY") = true ->
  keywords_truthy kw || truthy_opt cat = true ->
  let rq := request_of env kw cat limit in
  let run := fetch_top_headlines http env kw cat limit log in
  (forall e, http rq = Failed e -> run = (log ++ [rq], Raise e))
  /\ (forall status body,
        http rq = Response status body -> 400 <= status < 600 ->
        run = (log ++ [rq], Raise (HTTPError status)))
  /\ (forall status,
        http rq = Response status None -> ~ 400 <= status < 600 ->
        run = (log ++ [rq], Raise JSONDecodeError)).
Proof.
  intros Hkey Hsel rq run. unfold run. rewrite fetch_unfold, Hkey. cbn [negb].
  assert (negb (keywords_truthy kw) && negb (truthy_opt cat) = false) as ->
    by (by rewrite <- negb_orb, Hsel).
  fold rq. split; [| split].
  - by intros e ->.
  - intros status body -> Hstatus.
    assert ((400 <=? status) && (status <? 600) = true) as -> by lia. done.
  - intros status -> Hstatus.
    assert ((400 <=? status) && (status <? 600) = false) as -> by lia. done.
Qed.

(** X2.  Whatever the arguments, a request that the call issues goes to the
    headlines endpoint with a time-out of 10, carries the credential as
    [apiKey], a [pageSize] between 3 and 5, and exactly one of [q] and
    [category]: nothing else. *)
Theorem request_shape env kw cat limit log rq :
  fst (fetch_top_headlines http env kw cat limit log) = log ++ [rq] ->
  req_url rq = endpoint
  /\ req_timeout rq = 10
  /\ (exists key, env !! "NEWS_API_KEY" = Some key /\ key <> ""
                  /\ req_params rq !! "apiKey" = Some (PStr key))
  /\ (exists n, req_params rq !! "pageSize" = Some (PInt n) /\ 3 <= n <= 5)
  /\ (dom (req_params rq) = ({["apiKey"; "pageSize"; "q"]} : gset string)
      \/ dom (req_params rq) = ({["apiKey"; "pageSize"; "category"]} : gset string)).
Proof.
  rewrite fetch_unfold.
  destruct (truthy_opt (env !! "NEWS_API_KEY")) eqn:Hkey; cbn [negb].
  2: { cbn [fst]. intros H. apply (f_equal length) in H.
       rewrite length_app in H. simpl in H. lia. }
  destruct (negb (keywords_truthy kw) && negb (truthy_opt cat)) eqn:Hsel.
  { cbn [fst]. intros H. apply (f_equal length) in H.
    rewrite length_app in H. simpl in H. lia. }
  cbn [fst]. intros H. apply app_inv_head in H. injection H as <-.
  split; [done |]. split; [done |].
  destruct (env !! "NEWS_API_KEY") as [key |] eqn:Ekey; [| done].
  unfold request_of. cbn [req_params]. rewrite Ekey. cbn [default].
  unfold build_params.
  split; [| split].
  - exists key. split; [done |]. split; [apply truthy_nonempty, Hkey |].
    destruct (list_truthy _); [| destruct (truthy_opt cat)];
      rewrite ?(lookup_insert_ne _ "q"), ?(lookup_insert_ne _ "category"),
        ?(lookup_insert_ne _ "pageSize") by done;
      by rewrite lookup_insert_eq.
  - exists (Z.max 3 (Z.min 5 limit)). split; [| lia].
    destruct (list_truthy _); [| destruct (truthy_opt cat)];
      rewrite ?(lookup_insert_ne _ "q"), ?(lookup_insert_ne _ "category") by done;
      by rewrite lookup_insert_eq.
  - destruct (list_truthy (normalise_keywords kw)) eqn:Hl.
    + left. rewrite !dom_insert_L, dom_empty_L. set_solver.
    + destruct (truthy_opt cat) eqn:Hcat.
      * right. rewrite !dom_insert_L, dom_empty_L. set_solver.
      * exfalso. destruct kw as [[s | [|]] |]; simpl in *; try done.
Qed.

(** X3.  The requested limit matters through its clamp only: a limit of 3
    or less (zero and negative ones too) behaves as 3, a limit of 5 or
    more as 5, for the request as for the result. *)
Theorem limit_saturates env kw cat limit log :
  (limit <= 3 ->
   fetch_top_headlines http env kw cat limit log
   = fetch_top_headlines http env kw cat 3 log)
  /\ (5 <= limit ->
      fetch_top_headlines http env kw cat limit log
      = fetch_top_headlines http env kw cat 5 log).
Proof.
  split; intros Hlimit; unfold fetch_top_headlines.
  - replace (Z.max 3 (Z.min 5 limit)) with (Z.max 3 (Z.min 5 3)) by lia. done.
  - replace (Z.max 3 (Z.min 5 limit)) with (Z.max 3 (Z.min 5 5)) by lia. done.
Qed.

End Facts.

(** A server that is down for maintenance. *)
Definition failing_http (rq : http_request) : http_response news_json :=
  Response 503 None.

Lemma headlines_request_failure_is_raised_witness :
  fetch_top_headlines failing_http sample_env None (Some "technology") 4 []
  = ([request_of sample_env None (Some "technology") 4], Raise (HTTPError 503)).
Proof.
  apply (proj1 (proj2 (headlines_request_failure_is_raised failing_http sample_env None
                         (Some "technology") 4 [] eq_refl eq_refl))
               503 None eq_refl).
  lia.
Defined.

Lemma request_shape_witness :
  req_url (request_of sample_env None (Some "technology") 9) = endpoint
  /\ dom (req_params (request_of sample_env None (Some "technology") 9))
     = ({["apiKey"; "pageSize"; "category"]} : gset string).
Proof.
  destruct (request_shape sample_http sample_env None (Some "technology") 9 []
              (request_of sample_env None (Some "technology") 9) eq_refl)
    as (Hurl & _ & _ & _ & [Hdom | Hdom]).
  - exfalso. assert (H : "q" ∈ dom (req_params (request_of sample_env None
                                                   (Some "technology") 9)))
      by (rewrite Hdom; set_solver).
    apply elem_of_dom in H as [v Hv]. vm_compute in Hv. discriminate.
  - split; [exact Hurl | exact Hdom].
Defined.

Lemma limit_saturates_witness :
  fetch_top_headlines sample_http sample_env None (Some "technology") (-7) []
  = fetch_top_headlines sample_http sample_env None (Some "technology") 3 []
  /\ fetch_top_headlines sample_http sample_env None (Some "technology") 100 []
     = fetch_top_headlines sample_http sample_env None (Some "technology") 5 [].
Proof.
  split.
  - apply (proj1 (limit_saturates sample_http sample_env None
                    (Some "technology") (-7) [])). lia.
  - apply (proj2 (limit_saturates sample_http sample_env None
                    (Some "technology") 100 [])). lia.
Defined.

End NewsFacts.

(** * Further properties of weather_client.py *)

Module WeatherFacts.

Import Weather WeatherSpec.

Section Facts.

Context {number : Type} {arith : Numbers number}.

(** The samples of the working set are samples of the answer. *)
Lemma working_set_subset today (samples : list (entry number)) e :
  e ∈ working_set today samples -> e ∈ samples.
Proof.
  unfold working_set.
  destruct (filter (fun e => is_today today e = true) samples) as [|e' l] eqn:E.
  - unfold slice_to. simpl. destruct samples as [|e0 rest]; simpl; [done |].
    rewrite list_elem_of_singleton. intros ->. by left.
  - rewrite <- E. rewrite list_elem_of_filter. tauto.
Qed.

Lemma filter_none {A} (P : A -> Prop) `{forall x, Decision (P x)} (l : list A) :
  Forall (fun x => ~ P x) l -> filter P l = [].
Proof. induction 1 as [|x l Hx _ IH]; [done |]. by rewrite filter_cons_False. Qed.

(** The first sample without a temperature ends the comprehension of line
    48 with a [KeyError]. *)
Lemma temperatures_KeyError (l : list (entry number)) :
  Exists (fun e => temp_of e = None) l ->
  exists key,
    comprehension get_temp l = Raise (KeyError key)
    /\ (key = "main" \/ key = "temp").
Proof.
  induction l as [|e l IH]; intros Hex; [by apply Exists_nil in Hex |].
  simpl. destruct (get_temp e) as [t | err] eqn:Et.
  - apply get_temp_Ok in Et. apply Exists_cons in Hex as [He | Hl]; [congruence |].
    destruct (IH Hl) as (key & -> & Hkey). eauto.
  - unfold get_temp in Et. destruct (main e) as [m |].
    + destruct (temp m); [done |]. injection Et as <-. eauto.
    + injection Et as <-. eauto.
Qed.

Variable http : http_request -> http_response (forecast_json number).

(** X4.  Without the credential (absent or empty) the call raises
    [RuntimeError] and issues no request, whatever the location. *)
Theorem missing_credential_is_raised env today location log :
  truthy_opt (env !! "OPENWEATHER_API_KEY") = false ->
  get_daily_weather http env today location log
  = (log, Raise (RuntimeError "OPENWEATHER_API_KEY environment variable not set")).
Proof. intros Hkey. by rewrite get_daily_weather_unfold, Hkey. Qed.

(** X5.  With the credential, every failure of the request surfaces as an
    exception after exactly one request: the transport's own exception,
    [HTTPError] for a status from 400 to 599, the decoding error for a
    body that is not JSON.  The request is not repeated. *)
Theorem forecast_request_failure_is_raised env today location log :
  truthy_opt (env !! "OPENWEATHER_API_KEY") = true ->
  let rq := request_of env location in
  let run := get_daily_weather http env today location log in
  (forall e, http rq = Failed e -> run = (log ++ [rq], Raise e))
  /\ (forall status body,
        http rq = Response status body -> 400 <= status < 600 ->
        run = (log ++ [rq], Raise (HTTPError status)))
  /\ (forall status,
        http rq = Response status None -> ~ 400 <= status < 600 ->
        run = (log ++ [rq], Raise JSONDecodeError)).
Proof.
  intros Hkey rq run. unfold run. rewrite get_daily_weather_unfold, Hkey.
  cbn [negb]. fold rq. split; [| split].
  - by intros e ->.
  - intros status body -> Hstatus.
    assert ((400 <=? status) && (status <? 600) = true) as -> by lia. done.
  - intros status -> Hstatus.
    assert ((400 <=? status) && (status <? 600) = false) as -> by lia. done.
Qed.

(** X6.  Whenever the answer carries at least one sample and every sample
    carries [main.temp] and [weather[0].description], the call returns a
    summary, whatever the date: with no sample of the day, the first sample
    stands in.  The one exception is a sum or a quotient of the
    temperatures that Python cannot compute, an integer too large for a
    float being involved: then the call raises [OverflowError], and
    nothing else. *)
Theorem returns_on_complete_samples env today location log status data :
  let ws := working_set today (default [] (list_ data)) in
  let run := get_daily_weather http env today location log in
  truthy_opt (env !! "OPENWEATHER_API_KEY") = true ->
  http (request_of env location) = Response status (Some data) ->
  ~ 400 <= status < 600 ->
  default [] (list_ data) <> [] ->
  Forall (fun e => is_Some (temp_of e) /\ is_Some (description_of e))
         (default [] (list_ data)) ->
  exists temps,
    mapM temp_of ws = Some temps
    /\ ((exists s, run = (log ++ [request_of env location], Ok s))
        \/ run = (log ++ [request_of env location], Raise OverflowError))
    /\ ((exists tsum avg,
            sum temps = Ok tsum /\ true_div tsum (length temps) = Ok avg) ->
        exists s, run = (log ++ [request_of env location], Ok s)).
Proof.
  intros ws run Hkey Hhttp Hstatus Hne Hall.
  assert (Hws : ws <> []) by (intros H; by apply working_set_empty in H).
  assert (Hsub : Forall (fun e => is_Some (temp_of e) /\ is_Some (description_of e)) ws).
  { rewrite Forall_forall in Hall. apply Forall_forall. intros e He.
    by apply Hall, (working_set_subset today). }
  destruct (mapM_is_Some_2 temp_of ws) as [temps Ht].
  { eapply Forall_impl; [exact Hsub |]. simpl. tauto. }
  destruct (mapM_is_Some_2 description_of ws) as [descs Hd].
  { eapply Forall_impl; [exact Hsub |]. simpl. tauto. }
  assert (Hrun : run = (log ++ [request_of env location], aggregate ws)).
  { unfold run. rewrite get_daily_weather_unfold, Hkey, Hhttp. cbn [negb].
    assert ((400 <=? status) && (status <? 600) = false) as -> by lia. done. }
  assert (Hreturns : forall tsum avg,
             sum temps = Ok tsum -> true_div tsum (length temps) = Ok avg ->
             exists s, run = (log ++ [request_of env location], Ok s)).
  { intros tsum avg Hsum Hdiv.
    destruct (aggregate_summary ws temps descs tsum avg Hws Ht Hd Hsum Hdiv)
      as (s & Hs & _).
    exists s. by rewrite Hrun, Hs. }
  exists temps. split; [done |]. split.
  - destruct (sum temps) as [tsum | e] eqn:Hsum.
    + destruct (true_div tsum (length temps)) as [avg | e] eqn:Hdiv.
      * left. by eapply Hreturns.
      * right. rewrite Hrun, (aggregate_overflow ws temps descs Hws Ht Hd); [done |].
        intros tsum' avg' Hsum' Hdiv'. congruence.
    + right. rewrite Hrun, (aggregate_overflow ws temps descs Hws Ht Hd); [done |].
      intros tsum' avg' Hsum'. congruence.
  - intros (tsum & avg & Hsum & Hdiv). by eapply Hreturns.
Qed.

(** X7.  When a sample of the working set lacks [main] or [main.temp], the
    call raises [KeyError] for that key, after its one request: no summary
    is made of the other samples. *)
Theorem missing_temperature_is_KeyError env today location log status data :
  truthy_opt (env !! "OPENWEATHER_API_KEY") = true ->
  http (request_of env location) = Response status (Some data) ->
  ~ 400 <= status < 600 ->
  Exists (fun e => temp_of e = None)
         (working_set today (default [] (list_ data))) ->
  exists key,
    get_daily_weather http env today location log
    = (log ++ [request_of env location], Raise (KeyError key))
    /\ (key = "main" \/ key = "temp").
Proof.
  intros Hkey Hhttp Hstatus Hex.
  destruct (temperatures_KeyError _ Hex) as (key & Hraise & Hk).
  exists key. split; [| done].
  rewrite get_daily_weather_unfold, Hkey, Hhttp. cbn [negb].
  assert ((400 <=? status) && (status <? 600) = false) as -> by lia.
  unfold aggregate. by rewrite Hraise.
Qed.

(** X8.  The chance of rain of a summary is the [pop] of one of the
    samples of the working set, 0.0 standing for a missing one: whatever
    holds of all these values holds of it, and so it is a probability,
    between 0 and 1, when they all are.  (The temperature has no such
    bounds: the rounding of the sum and of the quotient can take it past
    the greatest of the temperatures, as in [mean_is_rounded].) *)
Theorem chance_of_rain_is_a_sample_value env today location log status data
    temps descs tsum avg (P : number -> Prop) :
  let ws := working_set today (default [] (list_ data)) in
  truthy_opt (env !! "OPENWEATHER_API_KEY") = true ->
  http (request_of env location) = Response status (Some data) ->
  ~ 400 <= status < 600 ->
  ws <> [] ->
  mapM temp_of ws = Some temps ->
  mapM description_of ws = Some descs ->
  sum temps = Ok tsum ->
  true_div tsum (length temps) = Ok avg ->
  exists s e,
    get_daily_weather http env today location log
    = (log ++ [request_of env location], Ok s)
    /\ e ∈ ws
    /\ chance_of_rain s = pop_or_zero e
    /\ (Forall (fun e => P (pop_or_zero e)) ws -> P (chance_of_rain s)).
Proof.
  intros ws Hkey Hhttp Hstatus Hws Ht Hd Hsum Hdiv.
  destruct (aggregate_summary ws temps descs tsum avg Hws Ht Hd Hsum Hdiv)
    as (s & Hs & _ & _ & _ & Hin & _).
  apply list_elem_of_fmap in Hin as (e & Hpop & He).
  exists s, e. split; [| split; [done | split; [done |]]].
  - rewrite get_daily_weather_unfold, Hkey, Hhttp. cbn [negb].
    assert ((400 <=? status) && (status <? 600) = false) as -> by lia.
    fold ws. by rewrite Hs.
  - intros Hpops. rewrite Hpop. rewrite Forall_forall in Hpops. by apply Hpops.
Qed.

(** X9.  When no sample is dated today, the summary is that of the first
    sample of the answer alone: its temperature, as [sum] and the division
    by 1 leave it, its description and its [pop] (0.0 without one); the
    later samples play no part. *)
Theorem fallback_is_first_sample env today location log status data e rest t d
    tsum avg :
  truthy_opt (env !! "OPENWEATHER_API_KEY") = true ->
  http (request_of env location) = Response status (Some data) ->
  ~ 400 <= status < 600 ->
  default [] (list_ data) = e :: rest ->
  Forall (fun e' => is_today today e' = false) (e :: rest) ->
  temp_of e = Some t ->
  description_of e = Some d ->
  sum [t] = Ok tsum ->
  true_div tsum 1 = Ok avg ->
  exists s,
    get_daily_weather http env today location log
    = (log ++ [request_of env location], Ok s)
    /\ temperature s = avg
    /\ condition s = d
    /\ chance_of_rain s = pop_or_zero e.
Proof.
  intros Hkey Hhttp Hstatus Hlist Hnone Ht Hd Hsum Hdiv.
  assert (Hws : working_set today (e :: rest) = [e]).
  { rewrite working_set_fallback; [done |].
    apply filter_none. eapply Forall_impl; [exact Hnone |].
    simpl. intros e' ->. done. }
  rewrite get_daily_weather_unfold, Hkey, Hhttp. cbn [negb].
  assert ((400 <=? status) && (status <? 600) = false) as -> by lia.
  rewrite Hlist, Hws. unfold aggregate. cbn [comprehension].
  apply get_temp_Ok in Ht. apply get_description_Ok in Hd. rewrite Ht, Hd.
  cbn [length]. rewrite Hsum, Hdiv.
  eexists. split; [reflexivity |]. cbn [temperature condition chance_of_rain].
  by repeat split.
Qed.

End Facts.

(** ** Runs *)

Definition unauthorized_http (rq : http_request) : http_response (forecast_json Q) :=
  Response 401 None.

(** An answer whose second sample has no [main] object. *)
Definition broken_forecast : list (entry Q) :=
  [ sample "2024-05-01 09:00:00" 10%Q "clear sky" None;
    Entry (Some "2024-05-01 12:00:00") None (Some [WeatherObj (Some "rain")]) None ].

Definition broken_http (rq : http_request) : http_response (forecast_json Q) :=
  Response 200 (Some (ForecastJson (Some broken_forecast))).

Lemma sample_forecast_complete :
  Forall (fun e => is_Some (temp_of e) /\ is_Some (description_of e)) sample_forecast.
Proof. repeat constructor; eexists; reflexivity. Qed.

Lemma missing_credential_is_raised_witness :
  get_daily_weather sample_http ∅ "2024-05-01" "Oslo" []
  = ([], Raise (RuntimeError "OPENWEATHER_API_KEY environment variable not set")).
Proof.
  apply (missing_credential_is_raised sample_http ∅ "2024-05-01" "Oslo" []).
  reflexivity.
Defined.

Lemma forecast_request_failure_is_raised_witness :
  get_daily_weather unauthorized_http sample_env "2024-05-01" "Oslo" []
  = ([request_of sample_env "Oslo"], Raise (HTTPError 401)).
Proof.
  apply (proj1 (proj2 (forecast_request_failure_is_raised unauthorized_http sample_env
                         "2024-05-01" "Oslo" [] eq_refl))
               401 None eq_refl).
  lia.
Defined.

Lemma returns_on_complete_samples_witness :
  exists s,
    get_daily_weather sample_http sample_env "2031-12-24" "Oslo" []
    = ([request_of sample_env "Oslo"], Ok s).
Proof.
  destruct (returns_on_complete_samples sample_http sample_env "2031-12-24" "Oslo" []
              200 (ForecastJson (Some sample_forecast)) eq_refl eq_refl)
    as (temps & Htemps & _ & Hreturns).
  - lia.
  - discriminate.
  - exact sample_forecast_complete.
  - apply Hreturns. injection Htemps as <-.
    exists (10 # 1)%Q, (10 # 1)%Q. split; reflexivity.
Defined.

Lemma missing_temperature_is_KeyError_witness :
  get_daily_weather broken_http sample_env "2024-05-01" "Oslo" []
  = ([request_of sample_env "Oslo"], Raise (KeyError "main")).
Proof.
  destruct (missing_temperature_is_KeyError broken_http sample_env "2024-05-01"
              "Oslo" [] 200 (ForecastJson (Some broken_forecast)) eq_refl eq_refl)
    as (key & Hrun & _).
  - lia.
  - apply Exists_cons_tl, Exists_cons_hd. reflexivity.
  - rewrite Hrun. vm_compute in Hrun. by injection Hrun as <-.
Defined.

Lemma chance_of_rain_is_a_sample_value_witness :
  exists s,
    get_daily_weather sample_http sample_env "2024-05-01" "Oslo" []
    = ([request_of sample_env "Oslo"], Ok s)
    /\ (0 <= chance_of_rain s <= 1)%Q.
Proof.
  destruct (chance_of_rain_is_a_sample_value sample_http sample_env "2024-05-01"
              "Oslo" [] 200 (ForecastJson (Some sample_forecast))
              [10; 12]%Q ["clear sky"; "clear sky"] (22 # 1)%Q (22 # 2)%Q
              (fun p => (0 <= p <= 1)%Q) eq_refl eq_refl)
    as (s & e & Hrun & _ & _ & Hpop).
  - lia.
  - vm_compute. discriminate.
  - reflexivity.
  - reflexivity.
  - reflexivity.
  - reflexivity.
  - exists s. split; [exact Hrun |]. apply Hpop.
    repeat constructor; vm_compute; discriminate.
Defined.

Lemma fallback_is_first_sample_witness :
  exists s,
    get_daily_weather sample_http sample_env "2024-04-30" "Oslo" []
    = ([request_of sample_env "Oslo"], Ok s)
    /\ temperature s = (10 # 1)%Q
    /\ condition s = "clear sky"
    /\ chance_of_rain s = (1 # 10)%Q.
Proof.
  apply (fallback_is_first_sample sample_http sample_env "2024-04-30" "Oslo" []
           200 (ForecastJson (Some sample_forecast))
           (sample "2024-05-01 09:00:00" 10%Q "clear sky" (Some (1 # 10)%Q))
           [ sample "2024-05-01 12:00:00" 12%Q "clear sky" (Some (3 # 10)%Q);
             sample "2024-05-02 09:00:00" 30%Q "rain" (Some (9 # 10)%Q) ]
           10%Q "clear sky" (10 # 1)%Q (10 # 1)%Q eq_refl eq_refl);
    [lia | reflexivity | repeat constructor | reflexivity | reflexivity
    | reflexivity | reflexivity].
Defined.

End WeatherFacts.

(** * Further properties of the sequence methods *)

Module TextFacts.

Import Text TextSpec.

Section Sequences.

Context {C : Type}.
Variable space : C -> bool.
Variable sp : C.
Hypothesis sp_space : space sp = true.

(** [sp.join(s.strip().split())], the expression of line 99. *)
Definition normalised (s : list C) : list C :=
  join [sp] (split space (strip space s)).

(** No white space at the head when [after_space] is set, and nowhere two
    white-space characters in a row. *)
Fixpoint single_spaced (after_space : bool) (l : list C) : bool :=
  match l with
  | [] => true
  | c :: rest =>
      if space c then negb after_space && single_spaced true rest
      else single_spaced false rest
  end.

(** Every white-space character is [sp]. *)
Definition only_sp (l : list C) : Prop :=
  Forall (fun c => space c = true -> c = sp) l.

Lemma normalised_collapse s :
  normalised s = rstrip space (collapse_runs_from space sp true s).
Proof.
  unfold normalised. rewrite (join_split_strip space sp sp_space).
  unfold collapsed_and_trimmed, strip. by rewrite (lstrip_collapse space sp sp_space).
Qed.

Lemma collapse_single_spaced b s :
  single_spaced b (collapse_runs_from space sp b s) = true.
Proof.
  revert b. induction s as [|c s IH]; intros b; simpl; [done |].
  destruct (space c) eqn:Hc.
  - destruct b; [apply IH |]. simpl. rewrite sp_space. simpl. apply IH.
  - simpl. rewrite Hc. apply IH.
Qed.

Lemma collapse_only_sp b s : only_sp (collapse_runs_from space sp b s).
Proof.
  revert b. induction s as [|c s IH]; intros b; simpl; [constructor |].
  destruct (space c) eqn:Hc.
  - destruct b; [apply IH |]. constructor; [done | apply IH].
  - constructor; [congruence | apply IH].
Qed.

Lemma single_spaced_prefix b l1 l2 :
  single_spaced b (l1 ++ l2) = true -> single_spaced b l1 = true.
Proof.
  revert b. induction l1 as [|c l1 IH]; intros b; simpl; [done |].
  destruct (space c); [| apply IH].
  destruct b; simpl; [done | apply IH].
Qed.

Lemma single_spaced_head l c rest :
  single_spaced true l = true -> l = c :: rest -> space c = false.
Proof. intros H ->. simpl in H. by destruct (space c). Qed.

Lemma single_spaced_adjacent b l l1 x y l2 :
  single_spaced b l = true -> l = l1 ++ x :: y :: l2 ->
  space x = true -> space y = false.
Proof.
  intros H ->. revert b H. induction l1 as [|c l1 IH]; intros b H Hx; simpl in H.
  - rewrite Hx in H. apply andb_true_iff in H as [_ H]. simpl in H.
    by destruct (space y).
  - destruct (space c).
    + apply andb_true_iff in H as [_ H]. by apply (IH true).
    + by apply (IH false).
Qed.

(** A text that is single-spaced already is left alone by the collapse. *)
Lemma collapse_fixed b l :
  single_spaced b l = true -> only_sp l -> collapse_runs_from space sp b l = l.
Proof.
  intros Hs Ho. revert b Hs. induction Ho as [|c l Hc _ IH]; intros b Hs; simpl in *; [done |].
  destruct (space c) eqn:E.
  - apply andb_true_iff in Hs as [Hb Hs]. destruct b; [done |].
    rewrite (IH true Hs). by rewrite (Hc eq_refl).
  - by rewrite (IH false Hs).
Qed.

Lemma lstrip_idempotent s : lstrip space (lstrip space s) = lstrip space s.
Proof.
  induction s as [|c s IH]; simpl; [done |].
  destruct (space c) eqn:Hc; [done |]. simpl. by rewrite Hc.
Qed.

Lemma rstrip_idempotent s : rstrip space (rstrip space s) = rstrip space s.
Proof. unfold rstrip. by rewrite rev_involutive, lstrip_idempotent. Qed.

Lemma rstrip_prefix s : rstrip space s `prefix_of` s.
Proof. destruct (rstrip_decompose space s) as (ws & Hs & _). by exists ws. Qed.

Lemma take_prefix (n : nat) (l : list C) : firstn n l `prefix_of` l.
Proof. exists (skipn n l). symmetry. apply firstn_skipn. Qed.

(** The cut normal form is a prefix of the collapsed text. *)
Lemma cut_prefix n s :
  firstn n (normalised s) `prefix_of` collapse_runs_from space sp true s.
Proof.
  rewrite normalised_collapse. etrans; [apply take_prefix | apply rstrip_prefix].
Qed.

Lemma cut_single_spaced n s : single_spaced true (firstn n (normalised s)) = true.
Proof.
  destruct (cut_prefix n s) as [k Hk].
  apply (single_spaced_prefix true _ k). rewrite <- Hk. apply collapse_single_spaced.
Qed.

Lemma cut_only_sp n s : only_sp (firstn n (normalised s)).
Proof.
  destruct (cut_prefix n s) as [k Hk].
  pose proof (collapse_only_sp true s) as H. rewrite Hk in H.
  by apply Forall_app in H as [H _].
Qed.

(** Normalising a cut normal form again removes its white space at the end,
    if it has any, and nothing else. *)
Lemma normalised_cut n s :
  normalised (firstn n (normalised s)) = rstrip space (firstn n (normalised s)).
Proof.
  rewrite (normalised_collapse (firstn n (normalised s))).
  by rewrite collapse_fixed by (apply cut_single_spaced || apply cut_only_sp).
Qed.

Lemma normalised_idempotent s : normalised (normalised s) = normalised s.
Proof.
  rewrite (normalised_collapse (normalised s)).
  rewrite collapse_fixed.
  - rewrite (normalised_collapse s). apply rstrip_idempotent.
  - rewrite <- (firstn_all (normalised s)). apply cut_single_spaced.
  - rewrite <- (firstn_all (normalised s)). apply cut_only_sp.
Qed.

(** ** Blank texts *)

Lemma split_from_nil word s :
  split_from space word s = [] <-> word = [] /\ forallb space s = true.
Proof.
  revert word. induction s as [|c s IH]; intros word; simpl.
  - destruct word; split; try done. by intros [? _].
  - destruct (space c); simpl.
    + destruct word as [|c' w].
      * rewrite IH. tauto.
      * split; [done | by intros [? _]].
    + rewrite IH. split; [by intros [? _] | by intros [_ ?]].
Qed.

Lemma normalised_nil s : normalised s = [] <-> forallb space s = true.
Proof.
  unfold normalised. rewrite split_strip. unfold split.
  destruct (split_from space [] s) as [|w ws] eqn:E.
  - split; [| done]. intros _. by apply split_from_nil in E as [_ ?].
  - split.
    + intros H. exfalso. revert H. apply join_nonempty.
      pose proof (split_from_words space [] s) as Hall. rewrite E in Hall.
      by apply Forall_cons in Hall as [? _].
    + intros H. assert (split_from space [] s = []) by (by apply split_from_nil).
      congruence.
Qed.

(** ** The characters that are kept *)

Abbreviation visible := (filter (fun c => space c = false)).

Lemma visible_spaces ws : forallb space ws = true -> visible ws = [].
Proof.
  induction ws as [|c ws IH]; simpl; [done |].
  destruct (space c) eqn:Hc; simpl; [| done]. intros Hws.
  rewrite filter_cons_False by (by rewrite Hc). auto.
Qed.

Lemma visible_collapse b s :
  visible (collapse_runs_from space sp b s) = visible s.
Proof.
  revert b. induction s as [|c s IH]; intros b; simpl; [done |].
  destruct (space c) eqn:Hc.
  - rewrite (filter_cons_False _ c) by (by rewrite Hc).
    destruct b; [apply IH |].
    rewrite filter_cons_False by (by rewrite sp_space). apply IH.
  - rewrite !filter_cons_True by done. by rewrite IH.
Qed.

Lemma visible_rstrip s : visible (rstrip space s) = visible s.
Proof.
  destruct (rstrip_decompose space s) as (ws & Hs & Hws).
  rewrite Hs at 2. by rewrite filter_app, (visible_spaces ws Hws), app_nil_r.
Qed.

Lemma visible_normalised s : visible (normalised s) = visible s.
Proof. by rewrite normalised_collapse, visible_rstrip, visible_collapse. Qed.

Lemma visible_cut n s : visible (firstn n (normalised s)) `prefix_of` visible s.
Proof.
  rewrite <- (visible_normalised s).
  exists (visible (skipn n (normalised s))).
  by rewrite <- filter_app, firstn_skipn.
Qed.

End Sequences.

End TextFacts.

(** * Further properties of email_fetcher.py *)

Module MailFacts.

Import Mail MailSpec TextFacts.

Lemma snippet_of_text_cut text :
  snippet_of_text text = firstn 100 (normalised isspace 32%N text).
Proof. reflexivity. Qed.

(** X10.  A snippet is one line of single-spaced text: it never starts with
    white space, never has two white-space characters in a row, has no
    white-space character other than the space, U+0020 (no line feed, no
    tab), and at most 100 characters. *)
Theorem snippet_is_single_spaced text :
  (forall c rest, snippet_of_text text = c :: rest -> isspace c = false)
  /\ (forall before x y after,
        snippet_of_text text = before ++ x :: y :: after ->
        isspace x = true -> isspace y = false)
  /\ Forall (fun c => isspace c = true -> c = 32%N) (snippet_of_text text)
  /\ (length (snippet_of_text text) <= 100)%nat.
Proof.
  rewrite snippet_of_text_cut.
  pose proof (cut_single_spaced isspace 32%N isspace_SPACE 100 text) as Hs.
  split; [| split; [| split]].
  - intros c rest. by apply (single_spaced_head isspace).
  - intros before x y after Heq.
    by apply (single_spaced_adjacent isspace true _ before x y after Hs).
  - apply (cut_only_sp isspace 32%N isspace_SPACE).
  - rewrite length_take. lia.
Qed.

(** X11.  The snippet is empty exactly when the text is blank: empty, or
    made of white space only. *)
Theorem snippet_empty_iff_blank text :
  snippet_of_text text = [] <-> forallb isspace text = true.
Proof.
  rewrite snippet_of_text_cut, <- (normalised_nil isspace 32%N).
  destruct (normalised isspace 32%N text); simpl; split; done.
Qed.

(** X12.  The snippet loses white space only: its characters other than
    white space are the first such characters of the text, in order, and
    all of them when the snippet is shorter than 100 characters. *)
Theorem snippet_keeps_visible_characters text :
  let visible := filter (fun c => isspace c = false) in
  visible (snippet_of_text text) `prefix_of` visible text
  /\ ((length (snippet_of_text text) < 100)%nat ->
      visible (snippet_of_text text) = visible text).
Proof.
  cbv zeta. rewrite snippet_of_text_cut. split.
  - apply (visible_cut isspace 32%N isspace_SPACE).
  - rewrite length_take. intros Hlen.
    rewrite firstn_all2 by lia.
    apply (visible_normalised isspace 32%N isspace_SPACE).
Qed.

(** X13.  Making a snippet of a snippet removes at most the space that the
    cut at 100 characters has left at its end: the result is the snippet
    without its trailing white space. *)
Theorem snippet_of_snippet text :
  snippet_of_text (snippet_of_text text)
  = Text.rstrip isspace (snippet_of_text text).
Proof.
  rewrite (snippet_of_text_cut (snippet_of_text text)), (snippet_of_text_cut text).
  rewrite (normalised_cut isspace 32%N isspace_SPACE).
  apply firstn_all2.
  destruct (rstrip_prefix isspace (firstn 100 (normalised isspace 32%N text)))
    as [k Hk].
  apply (f_equal length) in Hk. rewrite length_app, length_take in Hk. lia.
Qed.

Section Facts.

Variable decode : string -> bytes -> option str.
Variable message_from_bytes : bytes -> message.
Variable server : list imap_cmd -> imap_reply.

(** X14.  The snippet of a multipart message is made of the first part, in
    the order of [walk], that is [text/plain] and has no
    [Content-Disposition]: parts of another type and attachments before it
    are passed over, parts after it are not looked at.  Without such a part
    the snippet is empty. *)
Theorem multipart_takes_first_plain_part h parts :
  let msg := Multipart h parts in
  (forall before part after b text,
      walk msg = before ++ part :: after ->
      Forall (fun p => is_plain_inline p = false) before ->
      is_plain_inline part = true ->
      get_payload_decoded part = PayloadBytes b ->
      decode (or_utf8 (content_charset (headers_of part))) b = Some text ->
      _extract_snippet decode msg = Ok (snippet_of_text text))
  /\ (Forall (fun p => is_plain_inline p = false) (walk msg) ->
      _extract_snippet decode msg = Ok []).
Proof.
  intros msg. unfold _extract_snippet, body_text.
  change (is_multipart msg) with true. cbv iota. split.
  - intros before part after b text -> Hbefore Hpart Hpayload Hdecode.
    rewrite (first_plain_text_found decode before part after Hbefore Hpart).
    rewrite Hpayload. simpl. by rewrite Hdecode.
  - intros Hnone. by rewrite (first_plain_text_none decode _ Hnone).
Qed.

(** ** The session log *)

Abbreviation loop := (fetch_loop decode message_from_bytes server).

Lemma command_run c log :
  command server c log
  = (log ++ [c], match server (log ++ [c]) with
                 | Fails e => Raise e
                 | Reply status data => Ok (status, data)
                 end).
Proof. reflexivity. Qed.

(** A computation that only adds commands satisfying [P] to the log. *)
Definition appends {A} (P : imap_cmd -> Prop) (m : M imap_cmd A) : Prop :=
  forall log, exists suffix, fst (m log) = log ++ suffix /\ Forall P suffix.

Lemma appends_ret {A} P (a : A) : appends P (ret a).
Proof. intros log. exists []. by rewrite app_nil_r. Qed.

Lemma appends_lift {A} P (r : result A) : appends P (lift r).
Proof. intros log. exists []. rewrite app_nil_r. by destruct r. Qed.

Lemma appends_command P c : P c -> appends P (command server c).
Proof. intros Hc log. exists [c]. rewrite command_run. split; [done | by constructor]. Qed.

Lemma appends_bind {A B} P (m : M imap_cmd A) (k : A -> M imap_cmd B) :
  appends P m -> (forall a, appends P (k a)) -> appends P (bind m k).
Proof.
  intros Hm Hk log. destruct (Hm log) as (s1 & H1 & HP1). unfold bind.
  destruct (m log) as [l1 [a | e]]; simpl in H1; subst l1.
  - destruct (Hk a (log ++ s1)) as (s2 & H2 & HP2).
    exists (s1 ++ s2). rewrite H2, app_assoc. split; [done | by apply Forall_app].
  - by exists s1.
Qed.

Lemma appends_try_finally {A} P (body : M imap_cmd A) (fin : M imap_cmd unit) :
  appends P body -> appends P fin -> appends P (try_finally body fin).
Proof.
  intros Hb Hf log. destruct (Hb log) as (s1 & H1 & HP1). unfold try_finally.
  destruct (body log) as [l1 r]; simpl in H1; subst l1.
  destruct (Hf (log ++ s1)) as (s2 & H2 & HP2).
  destruct (fin (log ++ s1)) as [l2 [u | e]]; simpl in H2; subst l2;
    exists (s1 ++ s2); rewrite app_assoc; (split; [done | by apply Forall_app]).
Qed.

Lemma appends_weaken {A} (P Q : imap_cmd -> Prop) (m : M imap_cmd A) :
  (forall c, P c -> Q c) -> appends P m -> appends Q m.
Proof.
  intros HPQ Hm log. destruct (Hm log) as (s & Hs & HP).
  exists s. split; [done |]. by eapply Forall_impl.
Qed.

Definition is_store (c : imap_cmd) : bool :=
  match c with Store _ _ _ => true | _ => false end.

Definition is_fetch (c : imap_cmd) : bool :=
  match c with Fetch _ _ => true | _ => false end.

(** The commands of the [try] block: all but the two of the clean-up. *)
Definition is_release (c : imap_cmd) : bool :=
  match c with Close | Logout => true | _ => false end.

(** The loop issues fetches, and flag updates only when asked to. *)
Lemma fetch_loop_appends mark nums messages :
  appends (fun c => is_fetch c = true \/ (mark = true /\ is_store c = true))
          (loop mark nums messages).
Proof.
  revert messages. induction nums as [|num rest IH]; intros messages.
  - apply appends_ret.
  - cbn [fetch_loop]. apply appends_bind; [apply appends_command; by left |].
    intros r. destruct (negb (is_ok r.1)); [apply IH |].
    apply appends_bind; [apply appends_lift |]. intros raw.
    apply appends_bind; [apply appends_lift |]. intros subject.
    apply appends_bind; [apply appends_lift |]. intros snippet.
    apply appends_bind; [| intros _; apply IH].
    destruct mark; [| apply appends_ret].
    apply appends_bind; [apply appends_command; by right | intros _; apply appends_ret].
Qed.

(** The [try] block of [fetch_unread]. *)
Definition session_body (username password mailbox : string)
    (mark_as_read exclude_promotions : bool) : M imap_cmd (list (str * str)) :=
  bind (command server (Login username password)) (fun _ =>
  bind (command server (Select mailbox)) (fun _ =>
  bind (if exclude_promotions
        then command server (Search ["X-GM-RAW"; "category:primary"; "UNSEEN"])
        else command server (Search ["UNSEEN"])) (fun r =>
  if negb (is_ok r.1) then ret []
  else bind (lift (message_numbers r.2))
            (fun nums => loop mark_as_read nums [])))).

(** The [finally] block. *)
Definition session_release : M imap_cmd unit :=
  try_finally (bind (command server Close) (fun _ => ret tt))
              (bind (command server Logout) (fun _ => ret tt)).

Lemma fetch_unread_unfold host username password mailbox mark promo log :
  fetch_unread decode message_from_bytes server host username password mailbox
    mark promo log
  = bind (command server (Connect host))
      (fun _ => try_finally (session_body username password mailbox mark promo)
                            session_release) log.
Proof. reflexivity. Qed.

Lemma session_body_appends username password mailbox mark promo :
  appends (fun c => is_release c = false /\ (mark = false -> is_store c = false))
          (session_body username password mailbox mark promo).
Proof.
  unfold session_body.
  apply appends_bind; [by apply appends_command |]. intros _.
  apply appends_bind; [by apply appends_command |]. intros _.
  apply appends_bind; [destruct promo; by apply appends_command |]. intros r.
  destruct (negb (is_ok r.1)); [apply appends_ret |].
  apply appends_bind; [apply appends_lift |]. intros nums.
  eapply appends_weaken; [| apply fetch_loop_appends].
  intros c [Hc | [-> Hc]]; destruct c; try done.
Qed.

(** The clean-up sends [Close], then [Logout], whatever the server answers;
    it fails with the error of [Logout], or else with the error of
    [Close]. *)
Lemma session_release_run log :
  session_release log
  = (log ++ [Close; Logout],
     match server (log ++ [Close; Logout]) with
     | Fails e => Raise e
     | Reply _ _ =>
         match server (log ++ [Close]) with
         | Fails e => Raise e
         | Reply _ _ => Ok tt
         end
     end).
Proof.
  unfold session_release, try_finally, bind. rewrite !command_run.
  replace ((log ++ [Close]) ++ [Logout]) with (log ++ [Close; Logout])
    by (by rewrite <- app_assoc).
  destruct (server (log ++ [Close])) as [e | st d];
    cbn [ret]; rewrite ?command_run;
    replace ((log ++ [Close]) ++ [Logout]) with (log ++ [Close; Logout])
      by (by rewrite <- app_assoc);
    by destruct (server (log ++ [Close; Logout])).
Qed.

(** X15.  A connection that cannot be made is the only thing that happens:
    the exception is raised as it is, and neither a login nor the clean-up
    is attempted. *)
Theorem connection_failure_ends_the_call host username password mailbox
    mark_as_read exclude_promotions log e :
  server (log ++ [Connect host]) = Fails e ->
  fetch_unread decode message_from_bytes server host username password mailbox
    mark_as_read exclude_promotions log
  = (log ++ [Connect host], Raise e).
Proof.
  intros Hfail. rewrite fetch_unread_unfold. unfold bind.
  by rewrite command_run, Hfail.
Qed.

(** X16.  Once the connection is made the session is always released,
    whatever the server answers afterwards and whether the call returns or
    raises: the last two commands are [Close] and [Logout], and they are
    sent this once only. *)
Theorem session_is_always_released host username password mailbox
    mark_as_read exclude_promotions log status data :
  server (log ++ [Connect host]) = Reply status data ->
  exists middle,
    fst (fetch_unread decode message_from_bytes server host username password
           mailbox mark_as_read exclude_promotions log)
    = log ++ [Connect host] ++ middle ++ [Close; Logout]
    /\ Forall (fun c => c <> Close /\ c <> Logout) middle.
Proof.
  intros Hconnect. rewrite fetch_unread_unfold.
  rewrite (bind_command server _ _ _ _ _ Hconnect).
  destruct (session_body_appends username password mailbox mark_as_read
              exclude_promotions (log ++ [Connect host])) as (middle & Hbody & Hmid).
  exists middle. split.
  - unfold try_finally.
    destruct (session_body _ _ _ _ _ (log ++ [Connect host])) as [l1 r].
    simpl in Hbody. subst l1. rewrite session_release_run.
    destruct (match server _ with Fails _ => _ | Reply _ _ => _ end);
      cbn [fst]; by rewrite <- !app_assoc.
  - eapply Forall_impl; [exact Hmid |]. intros c [Hc _]. by destruct c.
Qed.

(** X17.  Without [mark_as_read] the call sends no [Store] command,
    whatever the server answers: none of the commands that it adds to the
    session is one.  (What the server itself does to the flags of a
    message when it is fetched is not part of the session log.) *)
Theorem unmarked_call_never_stores host username password mailbox
    exclude_promotions log :
  exists suffix,
    fst (fetch_unread decode message_from_bytes server host username password
           mailbox false exclude_promotions log)
    = log ++ suffix
    /\ Forall (fun c => forall num command flags, c <> Store num command flags) suffix.
Proof.
  assert (H : appends (fun c => is_store c = false)
                (fetch_unread decode message_from_bytes server host username
                   password mailbox false exclude_promotions)).
  { unfold appends. setoid_rewrite fetch_unread_unfold.
    apply appends_bind; [by apply appends_command |]. intros _.
    apply appends_try_finally.
    - eapply appends_weaken; [| apply session_body_appends].
      intros c [_ Hc]. by apply Hc.
    - unfold session_release. apply appends_try_finally;
        (apply appends_bind; [by apply appends_command | intros _; apply appends_ret]). }
  destruct (H log) as (suffix & Hlog & Hall). exists suffix. split; [done |].
  eapply Forall_impl; [exact Hall |]. intros c Hc num command flags ->. done.
Qed.

(** X18.  An exception of the clean-up replaces the outcome of the call,
    even a list of messages that had been fetched: when [Logout] fails, or
    when [Close] fails and [Logout] does not, the call raises that
    exception. *)
Theorem release_failure_replaces_the_outcome host username password mailbox
    mark_as_read exclude_promotions log status data before outcome :
  server (log ++ [Connect host]) = Reply status data ->
  fetch_unread decode message_from_bytes server host username password mailbox
    mark_as_read exclude_promotions log
  = (before ++ [Close; Logout], outcome) ->
  (forall e, server (before ++ [Close; Logout]) = Fails e -> outcome = Raise e)
  /\ (forall e st d,
        server (before ++ [Close; Logout]) = Reply st d ->
        server (before ++ [Close]) = Fails e -> outcome = Raise e).
Proof.
  intros Hconnect. rewrite fetch_unread_unfold.
  rewrite (bind_command server _ _ _ _ _ Hconnect). unfold try_finally.
  destruct (session_body _ _ _ _ _ (log ++ [Connect host])) as [l1 r].
  rewrite session_release_run.
  destruct (server (l1 ++ [Close; Logout])) as [e1 | st1 d1] eqn:Hlogout;
    [| destruct (server (l1 ++ [Close])) as [e2 | st2 d2] eqn:Hclose];
    intros [= Hlog <-]; apply app_inv_tail in Hlog; subst l1;
    (split; [intros e He | intros e st d Hst He]); congruence.
Qed.

(** ** What a call that returns has done *)

Lemma bind_Ok_inv {A B} (m : M imap_cmd A) (k : A -> M imap_cmd B) log log' b :
  bind m k log = (log', Ok b) ->
  exists l1 a, m log = (l1, Ok a) /\ k a l1 = (log', Ok b).
Proof. unfold bind. destruct (m log) as [l1 [a | e]]; [eauto | done]. Qed.

Lemma lift_Ok_inv {A} (r : result A) log log' a :
  lift r log = (log', Ok a) -> log' = log /\ r = Ok a.
Proof. destruct r; simpl; unfold ret, raise; by intros [= <- <-]. Qed.

Lemma command_Ok_inv c log log' r :
  command server c log = (log', Ok r) -> log' = log ++ [c].
Proof. rewrite command_run. by intros [= <- _]. Qed.

Lemma command_Ok_reply c log log' r :
  command server c log = (log', Ok r) -> server (log ++ [c]) = Reply r.1 r.2.
Proof.
  rewrite command_run. destruct (server (log ++ [c])); [done |].
  by intros [= _ <-].
Qed.

Abbreviation stores := (filter (fun c => is_store c = true)).
Abbreviation fetches := (filter (fun c => is_fetch c = true)).

(** One turn of the loop: the message number, and the pair that the turn
    adds to the result, if it adds one. *)
Definition visit : Type := bytes * option (str * str).

(** The commands of a turn: the fetch, and after it the flag update when
    a pair is added and flagging is asked for. *)
Definition visit_commands (mark : bool) (v : visit) : list imap_cmd :=
  Fetch v.1 "(RFC822)"
  :: match v.2 with
     | Some _ => if mark then [Store v.1 "+FLAGS" "\Seen"] else []
     | None => []
     end.

(** The numbers of the messages whose pairs are returned. *)
Definition returned_numbers (visits : list visit) : list bytes :=
  omap (fun v : visit => match v.2 with Some _ => Some v.1 | None => None end)
       visits.

(** Every turn is what the server's reply to its fetch makes it: a pair,
    extracted from the data of the reply, when the status is OK, and none
    otherwise. *)
Definition answered (log : list imap_cmd) (mark : bool) (visits : list visit)
  : Prop :=
  forall before num o after,
    visits = before ++ (num, o) :: after ->
    exists st d,
      server (log ++ flat_map (visit_commands mark) before ++ [Fetch num "(RFC822)"])
      = Reply st d
      /\ match o with
         | Some item =>
             is_ok st = true /\ extracted decode message_from_bytes d = Ok item
         | None => is_ok st = false
         end.

Lemma answered_cons log mark (v : visit) visits st d :
  server (log ++ [Fetch v.1 "(RFC822)"]) = Reply st d ->
  match v.2 with
  | Some item => is_ok st = true /\ extracted decode message_from_bytes d = Ok item
  | None => is_ok st = false
  end ->
  answered (log ++ visit_commands mark v) mark visits ->
  answered log mark (v :: visits).
Proof.
  intros Hhead Ho Hrest before num o after Heq.
  destruct before as [|v' before]; simpl in Heq.
  - injection Heq as -> <-. exists st, d. by split.
  - injection Heq as <- ->.
    destruct (Hrest before num o after eq_refl) as (st' & d' & Hs & Ho').
    exists st', d'. split; [| done]. cbn [flat_map].
    rewrite <- !app_assoc in Hs. by rewrite <- !app_assoc.
Qed.

Lemma stores_visits mark visits :
  stores (flat_map (visit_commands mark) visits)
  = if mark
    then map (fun num => Store num "+FLAGS" "\Seen") (returned_numbers visits)
    else [].
Proof.
  induction visits as [|[num [item |]] visits IH]; cbn [flat_map];
    [by destruct mark | |].
  - unfold visit_commands at 1. cbn [fst snd]. destruct mark; cbn [app].
    + rewrite filter_cons_False by done. rewrite filter_cons_True by done.
      rewrite IH. done.
    + rewrite filter_cons_False by done. by rewrite IH.
  - unfold visit_commands at 1. cbn [fst snd app].
    rewrite filter_cons_False by done. rewrite IH. done.
Qed.

Lemma fetches_visits mark visits :
  length (fetches (flat_map (visit_commands mark) visits)) = length visits.
Proof.
  induction visits as [|[num [item |]] visits IH]; cbn [flat_map]; [done | |].
  - unfold visit_commands at 1. cbn [fst snd]. destruct mark; cbn [app].
    + rewrite filter_cons_True by done. rewrite filter_cons_False by done.
      simpl. by rewrite IH.
    + rewrite filter_cons_True by done. simpl. by rewrite IH.
  - unfold visit_commands at 1. cbn [fst snd app].
    rewrite filter_cons_True by done. simpl. by rewrite IH.
Qed.

Lemma returned_numbers_length visits :
  length (returned_numbers visits) = length (omap snd visits).
Proof.
  induction visits as [|[num [item |]] visits IH]; [done | |].
  - change (length (num :: returned_numbers visits)
            = length (item :: omap snd visits)).
    cbn [length]. by rewrite IH.
  - exact IH.
Qed.

Lemma omap_snd_length (visits : list visit) :
  (length (omap snd visits) <= length visits)%nat.
Proof.
  induction visits as [|[num [item |]] visits IH]; [done | |].
  - apply le_n_S, IH.
  - apply le_S, IH.
Qed.

(** A loop that returns has made one turn for every message number, in
    order. *)
Lemma fetch_loop_Ok mark nums messages log log' res :
  loop mark nums messages log = (log', Ok res) ->
  exists visits,
    map fst visits = nums
    /\ log' = log ++ flat_map (visit_commands mark) visits
    /\ res = messages ++ omap snd visits
    /\ answered log mark visits.
Proof.
  revert messages log. induction nums as [|num rest IH]; intros messages log.
  - intros [= <- <-]. exists []. rewrite !app_nil_r.
    repeat split; [done ..|]. intros [|? ?] ? ? ? ?; done.
  - cbn [fetch_loop]. intros H.
    apply bind_Ok_inv in H as (l1 & [st d] & Hfetch & H).
    pose proof (command_Ok_reply _ _ _ _ Hfetch) as Hreply.
    apply command_Ok_inv in Hfetch as ->. cbn [fst snd] in H, Hreply.
    destruct (is_ok st) eqn:Hst; cbn [negb] in H.
    + apply bind_Ok_inv in H as (l2 & raw & Hraw & H).
      apply lift_Ok_inv in Hraw as [-> Hraw].
      apply bind_Ok_inv in H as (l3 & subject & Hsubject & H).
      apply lift_Ok_inv in Hsubject as [-> Hsubject].
      apply bind_Ok_inv in H as (l4 & snippet & Hsnippet & H).
      apply lift_Ok_inv in Hsnippet as [-> Hsnippet].
      apply bind_Ok_inv in H as (l5 & u & Hmark & H).
      assert (Hpair : extracted decode message_from_bytes d = Ok (subject, snippet)).
      { unfold extracted. by rewrite Hraw, Hsubject, Hsnippet. }
      assert (Hlog : l5 = log ++ visit_commands mark (num, Some (subject, snippet))).
      { unfold visit_commands. cbn [fst snd]. destruct mark.
        - apply bind_Ok_inv in Hmark as (l6 & r & Hstore & Hret).
          apply command_Ok_inv in Hstore as ->. injection Hret as <-.
          by rewrite <- app_assoc.
        - by injection Hmark as <-. }
      subst l5.
      destruct (IH _ _ H) as (visits & Hnums & -> & -> & Hanswered).
      exists ((num, Some (subject, snippet)) :: visits).
      split; [by rewrite <- Hnums |]. cbn [flat_map].
      split; [by rewrite <- !app_assoc |]. split.
      * simpl. csimpl. by rewrite <- app_assoc.
      * by eapply (answered_cons log mark (num, Some (subject, snippet))).
    + destruct (IH _ _ H) as (visits & Hnums & -> & -> & Hanswered).
      exists ((num, None) :: visits).
      split; [by rewrite <- Hnums |]. cbn [flat_map].
      split; [by rewrite <- !app_assoc |]. split; [done |].
      by eapply (answered_cons log mark (num, None)).
Qed.

(** X19.  The session of a call that returns is the opening (connection,
    login, selection of the mailbox, search), one turn for every message
    number of the search reply, in order, and the clean-up.  A turn is the
    fetch of the message, followed, only when the fetch is answered OK and
    [mark_as_read] is set, by the update that adds the flag [\Seen] to
    that same message; the result holds, in order, the pairs of the turns
    whose fetch is answered OK.  So with [mark_as_read] a flag update has
    been sent for the number of every returned message, right after its
    fetch, and for no other; without it none has been sent.  What the
    server answers to an update is not looked at. *)
Theorem returned_messages_are_the_flagged_ones host username password mailbox
    mark_as_read exclude_promotions log log' res :
  fetch_unread decode message_from_bytes server host username password mailbox
    mark_as_read exclude_promotions log
  = (log', Ok res) ->
  exists criteria visits st d,
    let opening :=
      log ++ [Connect host; Login username password; Select mailbox;
              Search criteria] in
    let turns := flat_map (visit_commands mark_as_read) visits in
    criteria = (if exclude_promotions
                then ["X-GM-RAW"; "category:primary"; "UNSEEN"]
                else ["UNSEEN"])
    /\ log' = opening ++ turns ++ [Close; Logout]
    /\ server opening = Reply st d
    /\ (if is_ok st then message_numbers d = Ok (map fst visits) else visits = [])
    /\ answered opening mark_as_read visits
    /\ res = omap snd visits
    /\ stores (turns ++ [Close; Logout])
       = (if mark_as_read
          then map (fun num => Store num "+FLAGS" "\Seen") (returned_numbers visits)
          else [])
    /\ length (returned_numbers visits) = length res
    /\ (length res <= length (fetches turns))%nat.
Proof.
  rewrite fetch_unread_unfold. intros H.
  apply bind_Ok_inv in H as (l0 & r0 & Hconnect & H).
  apply command_Ok_inv in Hconnect as ->.
  unfold try_finally in H.
  destruct (session_body _ _ _ _ _ (log ++ [Connect host])) as [l1 r] eqn:Hbody.
  rewrite session_release_run in H.
  assert (Hres : r = Ok res /\ log' = l1 ++ [Close; Logout]).
  { destruct (server (l1 ++ [Close; Logout])); [done |].
    destruct (server (l1 ++ [Close])); [done |]. by injection H as <- <-. }
  destruct Hres as [-> ->]. clear H.
  unfold session_body in Hbody.
  apply bind_Ok_inv in Hbody as (l2 & r2 & Hlogin & Hbody).
  apply command_Ok_inv in Hlogin as ->.
  apply bind_Ok_inv in Hbody as (l3 & r3 & Hselect & Hbody).
  apply command_Ok_inv in Hselect as ->.
  apply bind_Ok_inv in Hbody as (l4 & [st d] & Hsearch & Hbody).
  set (criteria := if exclude_promotions
                   then ["X-GM-RAW"; "category:primary"; "UNSEEN"]
                   else ["UNSEEN"]).
  set (opening := log ++ [Connect host; Login username password; Select mailbox;
                          Search criteria]).
  assert (Hopening : l4 = opening /\ server opening = Reply st d).
  { unfold opening, criteria.
    destruct exclude_promotions;
      pose proof (command_Ok_reply _ _ _ _ Hsearch) as Hreply;
      apply command_Ok_inv in Hsearch as ->;
      rewrite <- !app_assoc in Hreply; by rewrite <- !app_assoc. }
  destruct Hopening as [-> Hreply]. clear Hsearch. cbn [fst snd] in Hbody.
  destruct (is_ok st) eqn:Hst; cbn [negb] in Hbody.
  - apply bind_Ok_inv in Hbody as (l5 & nums & Hnums & Hloop).
    apply lift_Ok_inv in Hnums as [-> Hnums].
    apply fetch_loop_Ok in Hloop as (visits & Hvisits & -> & -> & Hanswered).
    exists criteria, visits, st, d. cbv zeta. fold opening. rewrite Hst.
    split; [done |]. split; [by rewrite <- app_assoc |]. split; [done |].
    split; [by rewrite Hvisits |]. split; [done |]. split; [done |].
    split; [| split].
    + rewrite filter_app, stores_visits.
      rewrite !filter_cons_False by done. by rewrite app_nil_r.
    + apply returned_numbers_length.
    + rewrite fetches_visits. apply omap_snd_length.
  - injection Hbody as <- <-.
    exists criteria, [], st, d. cbv zeta. fold opening. rewrite Hst.
    split; [done |]. split; [done |]. split; [done |]. split; [done |].
    split; [intros [|? ?] ? ? ? ?; done |]. split; [done |].
    split; [by destruct mark_as_read |]. split; [done | simpl; lia].
Qed.

End Facts.

(** ** Runs *)

(** A server that cannot be reached. *)
Definition unreachable_server (h : list imap_cmd) : imap_reply := Fails IMAPError.

(** A server with an empty mailbox that fails on [Logout]. *)
Definition abrupt_server (h : list imap_cmd) : imap_reply :=
  match last h with
  | Some Logout => Fails IMAPError
  | Some (Search _) => Reply "OK" [ItemBytes []]
  | _ => Reply "OK" []
  end.

Definition sample_part (ct : string) (disposition : option string) (text : bytes)
  : message :=
  Single (Headers (SubjectStr []) ct disposition None) (PayloadBytes text).

Definition sample_container (subtype : string) : headers :=
  Headers (SubjectStr []) subtype None None.

Lemma multipart_takes_first_plain_part_witness :
  _extract_snippet latin1
    (Multipart (sample_container "multipart/mixed")
       [ sample_part "text/plain" (Some "attachment") [Byte.x78];
         Multipart (sample_container "multipart/alternative")
           [ sample_part "text/html" None [Byte.x3c; Byte.x70; Byte.x3e];
             sample_part "text/plain" None [Byte.x20; Byte.x6f; Byte.x0a; Byte.x6b];
             sample_part "text/plain" None [Byte.x7a] ] ])
  = Ok [111; 32; 107]%N.
Proof.
  apply (proj1 (multipart_takes_first_plain_part latin1
                  (sample_container "multipart/mixed")
                  [ sample_part "text/plain" (Some "attachment") [Byte.x78];
                    Multipart (sample_container "multipart/alternative")
                      [ sample_part "text/html" None [Byte.x3c; Byte.x70; Byte.x3e];
                        sample_part "text/plain" None
                          [Byte.x20; Byte.x6f; Byte.x0a; Byte.x6b];
                        sample_part "text/plain" None [Byte.x7a] ] ])
               [ Multipart (sample_container "multipart/mixed")
                   [ sample_part "text/plain" (Some "attachment") [Byte.x78];
                     Multipart (sample_container "multipart/alternative")
                       [ sample_part "text/html" None [Byte.x3c; Byte.x70; Byte.x3e];
                         sample_part "text/plain" None
                           [Byte.x20; Byte.x6f; Byte.x0a; Byte.x6b];
                         sample_part "text/plain" None [Byte.x7a] ] ];
                 sample_part "text/plain" (Some "attachment") [Byte.x78];
                 Multipart (sample_container "multipart/alternative")
                   [ sample_part "text/html" None [Byte.x3c; Byte.x70; Byte.x3e];
                     sample_part "text/plain" None
                       [Byte.x20; Byte.x6f; Byte.x0a; Byte.x6b];
                     sample_part "text/plain" None [Byte.x7a] ];
                 sample_part "text/html" None [Byte.x3c; Byte.x70; Byte.x3e] ]
               (sample_part "text/plain" None [Byte.x20; Byte.x6f; Byte.x0a; Byte.x6b])
               [ sample_part "text/plain" None [Byte.x7a] ]
               [Byte.x20; Byte.x6f; Byte.x0a; Byte.x6b]
               [32; 111; 10; 107]%N
               eq_refl);
    [repeat constructor | reflexivity | reflexivity | reflexivity].
Defined.

Lemma connection_failure_ends_the_call_witness :
  fetch_unread latin1 plain_message unreachable_server
    "imap.example.org" "user" "password" "INBOX" true false []
  = ([Connect "imap.example.org"], Raise IMAPError).
Proof.
  apply (connection_failure_ends_the_call latin1 plain_message unreachable_server
           "imap.example.org" "user" "password" "INBOX" true false [] IMAPError).
  reflexivity.
Defined.

Lemma session_is_always_released_witness :
  exists middle,
    fst (fetch_unread latin1 plain_message (sample_server "OK")
           "imap.example.org" "user" "password" "INBOX" true false [])
    = [] ++ [Connect "imap.example.org"] ++ middle ++ [Close; Logout]
    /\ Forall (fun c => c <> Close /\ c <> Logout) middle.
Proof.
  apply (session_is_always_released latin1 plain_message (sample_server "OK")
           "imap.example.org" "user" "password" "INBOX" true false [] "OK" []).
  reflexivity.
Defined.

Lemma release_failure_replaces_the_outcome_witness :
  snd (fetch_unread latin1 plain_message abrupt_server
         "imap.example.org" "user" "password" "INBOX" false false [])
  = Raise IMAPError.
Proof.
  apply (proj1 (release_failure_replaces_the_outcome latin1 plain_message
                  abrupt_server "imap.example.org" "user" "password" "INBOX"
                  false false [] "OK" []
                  [ Connect "imap.example.org"; Login "user" "password";
                    Select "INBOX"; Search ["UNSEEN"] ]
                  _ eq_refl eq_refl)
               IMAPError eq_refl).
Defined.

Lemma returned_messages_are_the_flagged_ones_witness :
  exists criteria visits st d,
    let log' :=
      fst (fetch_unread latin1 plain_message (sample_server "OK")
             "imap.example.org" "user" "password" "INBOX" true false []) in
    let res := [sample_pairs [Byte.x31]; sample_pairs [Byte.x33]] in
    let opening :=
      [] ++ [Connect "imap.example.org"; Login "user" "password"; Select "INBOX";
             Search criteria] in
    let turns := flat_map (visit_commands true) visits in
    criteria = ["UNSEEN"]
    /\ log' = opening ++ turns ++ [Close; Logout]
    /\ sample_server "OK" opening = Reply st d
    /\ (if is_ok st then message_numbers d = Ok (map fst visits) else visits = [])
    /\ answered latin1 plain_message (sample_server "OK") opening true visits
    /\ res = omap snd visits
    /\ filter (fun c => is_store c = true) (turns ++ [Close; Logout])
       = map (fun num => Store num "+FLAGS" "\Seen") (returned_numbers visits)
    /\ length (returned_numbers visits) = length res
    /\ (length res <= length (filter (fun c => is_fetch c = true) turns))%nat.
Proof.
  cbv zeta. rewrite fetch_unread_sample. cbn [fst].
  apply (returned_messages_are_the_flagged_ones latin1 plain_message
           (sample_server "OK") "imap.example.org" "user" "password" "INBOX"
           true false [] _ [sample_pairs [Byte.x31]; sample_pairs [Byte.x33]]
           fetch_unread_sample).
Defined.

End MailFacts.

(** * More about summary_mailer.py *)

Module MailerFacts.

Import Mailer MailerSpec.

(** ** The HTML body *)

Lemma join_li_split (before : list string) x after :
  Py.join "" (map li (before ++ x :: after))
  = Py.join "" (map li before) +:+ "<li>" +:+ x +:+ "</li>"
    +:+ Py.join "" (map li after).
Proof.
  rewrite map_app, join_empty_app. cbn [map]. rewrite join_empty_cons.
  unfold li at 2. by rewrite !append_assoc.
Qed.

(** A string that holds the list element of [x]. *)
Definition holds_li (s x : string) : Prop :=
  exists before after, s = before +:+ "<li>" +:+ x +:+ "</li>" +:+ after.

Lemma holds_li_after p s x : holds_li s x -> holds_li (p +:+ s) x.
Proof.
  intros (before & after & ->). exists (p +:+ before), after.
  by rewrite !append_assoc.
Qed.

Lemma holds_li_before s q x : holds_li s x -> holds_li (s +:+ q) x.
Proof.
  intros (before & after & ->). exists before, (after +:+ q).
  by rewrite !append_assoc.
Qed.

Lemma holds_li_join xs x : x ∈ xs -> holds_li (Py.join "" (map li xs)) x.
Proof.
  intros Hx. apply list_elem_of_split in Hx as (l1 & l2 & ->).
  rewrite join_li_split. by eexists _, _.
Qed.

(** X20.  Every headline and every item stands in the HTML body as a list
    element that holds the string exactly as it was given: nothing is
    escaped, whatever characters the string is made of. *)
Theorem html_lists_entries_verbatim email_items weather headlines x :
  x ∈ headlines ++ email_items ->
  exists before after,
    snd (build_body email_items weather headlines)
    = before +:+ "<li>" +:+ x +:+ "</li>" +:+ after.
Proof.
  intros Hx. change (holds_li (snd (build_body email_items weather headlines)) x).
  rewrite build_body_html. apply elem_of_app in Hx as [Hx | Hx].
  - do 5 apply holds_li_after. apply holds_li_before. by apply holds_li_join.
  - do 8 apply holds_li_after. apply holds_li_before. by apply holds_li_join.
Qed.

Lemma html_lists_entries_verbatim_witness :
  exists before after,
    snd (build_body ["Invoice <#1> & more"] "11.0 C, clear sky"
           ["Rocq 9.3 released"])
    = before +:+ "<li>" +:+ "Invoice <#1> & more" +:+ "</li>" +:+ after.
Proof.
  apply (html_lists_entries_verbatim ["Invoice <#1> & more"] "11.0 C, clear sky"
           ["Rocq 9.3 released"] "Invoice <#1> & more").
  apply list_elem_of_further, list_elem_of_here.
Defined.

(** ** The SMTP session *)

(** The message that the dispatcher composes. *)
Definition digest_message (env : environ) (email_items : list string)
    (weather : string) (headlines : list string) : mime_message :=
  MimeMessage "Daily Summary"
    (default "" (env !! "EMAIL_FROM")) (default "" (env !! "EMAIL_TO"))
    [ (fst (build_body email_items weather headlines), "plain");
      (snd (build_body email_items weather headlines), "html") ].

(** The commands that come before the message. *)
Definition handshake (env : environ) (port : Z) : list smtp_cmd :=
  [ SmtpConnect (default "" (env !! "SMTP_HOST")) port;
    Starttls;
    SmtpLogin (default "" (env !! "SMTP_USER")) (default "" (env !! "SMTP_PASSWORD")) ].

(** The command that hands over the serialised message. *)
Definition delivery (env : environ) (text : string) : smtp_cmd :=
  Sendmail (default "" (env !! "EMAIL_FROM")) [default "" (env !! "EMAIL_TO")] text.

(** The commands of a complete session, [QUIT] apart. *)
Definition smtp_session (env : environ) (port : Z) (text : string) : list smtp_cmd :=
  [ SmtpConnect (default "" (env !! "SMTP_HOST")) port;
    Starttls;
    SmtpLogin (default "" (env !! "SMTP_USER")) (default "" (env !! "SMTP_PASSWORD"));
    delivery env text ].

Lemma take_session env port text k :
  (k <= 3)%nat -> take k (smtp_session env port text) = take k (handshake env port).
Proof. intros Hk. destruct k as [|[|[|[|k]]]]; first [reflexivity | lia]. Qed.

(** The settings are complete: the five required ones are present and the
    port, or its default, is a number. *)
Definition configured (env : environ) (port : Z) : Prop :=
  int (default "587" (env !! "SMTP_PORT")) = Ok port
  /\ Forall (fun key => truthy_opt (env !! key) = true) required.

Definition is_login (c : smtp_cmd) : bool :=
  match c with SmtpLogin _ _ => true | _ => false end.

Definition is_sendmail (c : smtp_cmd) : bool :=
  match c with Sendmail _ _ _ => true | _ => false end.

(** The outcome of a block whose last statement raises [e], when the
    commands before it have the outcome [lr]. *)
Definition then_raise (e : exn) (lr : list smtp_cmd * result unit)
  : list smtp_cmd * result unit :=
  match snd lr with
  | Ok _ => (fst lr, Raise e)
  | Raise _ => lr
  end.

Section Facts.

Variable smtp : list smtp_cmd -> option exn.
Variable as_string : mime_message -> result string.

(** Commands sent one after the other, up to the first that fails. *)
Fixpoint run_commands (cs : list smtp_cmd) (log : list smtp_cmd)
  : list smtp_cmd * result unit :=
  match cs with
  | [] => (log, Ok tt)
  | c :: rest =>
      match smtp (log ++ [c]) with
      | Some e => (log ++ [c], Raise e)
      | None => run_commands rest (log ++ [c])
      end
  end.

(** What [SMTP.__exit__] makes of the outcome of the block. *)
Definition quit (lr : list smtp_cmd * result unit) : list smtp_cmd * result unit :=
  (fst lr ++ [Quit],
   match smtp (fst lr ++ [Quit]) with
   | Some SMTPServerDisconnected => snd lr
   | Some e => Raise e
   | None => snd lr
   end).

Lemma run_commands_spec cs log :
  cs <> [] ->
  exists n,
    (1 <= n <= length cs)%nat
    /\ fst (run_commands cs log) = log ++ take n cs
    /\ (forall k, (1 <= k < n)%nat -> smtp (log ++ take k cs) = None)
    /\ match snd (run_commands cs log) with
       | Ok _ => n = length cs /\ smtp (log ++ take n cs) = None
       | Raise e => smtp (log ++ take n cs) = Some e
       end.
Proof.
  revert log. induction cs as [|c cs IH]; intros log Hcs; [done |].
  cbn [run_commands]. destruct (smtp (log ++ [c])) as [e |] eqn:Hc.
  - exists 1%nat. cbn [fst snd take length]. rewrite ?take_0.
    split; [lia |]. split; [done |]. split; [intros; lia | done].
  - destruct cs as [|c' cs'].
    + exists 1%nat. cbn [run_commands fst snd take length].
      split; [lia |]. split; [done |]. split; [intros; lia | done].
    + destruct (IH (log ++ [c])) as (n & Hn & Hlog & Hbefore & Hlast); [done |].
      exists (S n). rewrite Hlog. cbn [take]. rewrite <- app_assoc. cbn [app].
      split; [cbn [length] in *; lia |]. split; [done |]. split.
      * intros [|[|k]] Hk; [lia | cbn [take]; by rewrite ?take_0 |].
        cbn [take]. specialize (Hbefore (S k)).
        rewrite <- app_assoc in Hbefore. apply Hbefore. lia.
      * destruct (snd (run_commands (c' :: cs') (log ++ [c]))).
        -- destruct Hlast as [-> Hlast]. rewrite <- app_assoc in Hlast. done.
        -- by rewrite <- app_assoc in Hlast.
Qed.

(** The first command that the transport refuses ends the sequence. *)
Lemma run_commands_fails cs log n e :
  (1 <= n <= length cs)%nat ->
  (forall k, (1 <= k < n)%nat -> smtp (log ++ take k cs) = None) ->
  smtp (log ++ take n cs) = Some e ->
  run_commands cs log = (log ++ take n cs, Raise e).
Proof.
  intros Hn Hbefore Hlast.
  destruct (run_commands_spec cs log) as (n' & Hn' & Hlog & Hbefore' & Hlast').
  { intros ->. cbn [length] in Hn. lia. }
  assert (n' = n) as ->.
  { destruct (lt_eq_lt_dec n' n) as [[Hlt | ->] | Hlt]; [| done |].
    - destruct (snd (run_commands cs log)).
      + lia.
      + rewrite Hbefore in Hlast' by lia. done.
    - rewrite Hbefore' in Hlast by lia. done. }
  destruct (run_commands cs log) as [l r]. cbn [fst snd] in *. subst l.
  destruct r as [[] | e'].
  - destruct Hlast' as [_ Hlast']. congruence.
  - congruence.
Qed.

Lemma run_commands_accepted cs log :
  (forall k, (1 <= k <= length cs)%nat -> smtp (log ++ take k cs) = None) ->
  run_commands cs log = (log ++ cs, Ok tt).
Proof.
  revert log. induction cs as [|c cs IH]; intros log Hall.
  - cbn [run_commands]. by rewrite app_nil_r.
  - cbn [run_commands]. specialize (Hall 1%nat) as Hc.
    cbn [take length] in Hc. rewrite ?take_0 in Hc. rewrite Hc by lia.
    rewrite IH; [by rewrite <- app_assoc |].
    intros k Hk. specialize (Hall (S k)). cbn [take length] in Hall.
    rewrite <- app_assoc. apply Hall. lia.
Qed.

Section Call.

Variable env : environ.
Variable email_items : list string.
Variable weather : string.
Variable headlines : list string.

Abbreviation run :=
  (send_summary_email smtp as_string env email_items weather headlines).
Abbreviation session := (smtp_session env).
Abbreviation message := (digest_message env email_items weather headlines).

(** A call either stops on the settings, or its settings are complete. *)
Lemma settings_checked :
  (exists msg, forall log, run log = (log, Raise (ValueError msg)))
  \/ exists port, configured env port.
Proof.
  destruct (int (default "587" (env !! "SMTP_PORT"))) as [port | e] eqn:Hport.
  - destruct (all_truthy [env !! "SMTP_HOST"; env !! "SMTP_USER";
                          env !! "SMTP_PASSWORD"; env !! "EMAIL_FROM";
                          env !! "EMAIL_TO"]) eqn:Hall.
    + right. exists port. split; [done |].
      unfold all_truthy in Hall. cbn [forallb] in Hall.
      repeat (apply andb_prop in Hall as [? Hall]).
      unfold required. by repeat constructor.
    + left. eexists. intros log. unfold send_summary_email.
      rewrite Hport. cbn [lift]. rewrite bind_ret, Hall. reflexivity.
  - left. destruct (int_raises _ _ Hport) as [msg ->]. exists msg. intros log.
    unfold send_summary_email. rewrite Hport. reflexivity.
Qed.

(** With complete settings the call is the session: the connection, then
    the commands of the block up to the first that fails, then [QUIT].
    The message is serialised once STARTTLS and the login are accepted;
    when that raises, nothing more is sent but [QUIT]. *)
Lemma run_configured port log :
  configured env port ->
  run log
  = match smtp (log ++ take 1 (handshake env port)) with
    | Some e => (log ++ take 1 (handshake env port), Raise e)
    | None =>
        quit match as_string message with
             | Ok text => run_commands (session port text) log
             | Raise e => then_raise e (run_commands (handshake env port) log)
             end
    end.
Proof.
  intros [Hport Hall]. unfold send_summary_email. rewrite Hport.
  cbn [lift]. rewrite bind_ret.
  unfold required in Hall. repeat (apply Forall_cons in Hall as [? Hall]).
  assert (all_truthy [env !! "SMTP_HOST"; env !! "SMTP_USER";
                      env !! "SMTP_PASSWORD"; env !! "EMAIL_FROM";
                      env !! "EMAIL_TO"] = true) as ->.
  { unfold all_truthy. cbn [forallb]. by repeat (apply andb_true_intro; split). }
  cbn [negb]. unfold smtp_session, handshake, delivery, digest_message.
  destruct (build_body email_items weather headlines) as [text html].
  cbn [fst snd take run_commands]. rewrite ?take_0.
  unfold with_smtp, bind at 1, command at 1.
  destruct (smtp (log ++ [SmtpConnect _ _])) as [e |]; [done |].
  unfold try_finally, bind, command, smtp_exit, quit, then_raise.
  destruct (smtp ((log ++ [SmtpConnect _ _]) ++ [Starttls])) as [e |].
  { destruct (as_string _); cbn [fst snd]; by destruct (smtp _) as [[] |]. }
  destruct (smtp (((log ++ [SmtpConnect _ _]) ++ [Starttls]) ++ [SmtpLogin _ _]))
    as [e |].
  { destruct (as_string _); cbn [fst snd]; by destruct (smtp _) as [[] |]. }
  destruct (as_string _) as [serialised | e]; cbn [lift ret raise fst snd].
  - destruct (smtp ((((log ++ [SmtpConnect _ _]) ++ [Starttls]) ++ [SmtpLogin _ _])
                      ++ [Sendmail _ _ _]))
      as [e |]; cbn [fst snd]; by destruct (smtp _) as [[] |].
  - by destruct (smtp _) as [[] |].
Qed.

(** The block refuses at the [n]-th command. *)
Lemma block_refused port text log n e :
  (1 <= n <= 4)%nat ->
  (n = 4%nat -> as_string message = Ok text) ->
  (forall k, (1 <= k < n)%nat -> smtp (log ++ take k (session port text)) = None) ->
  smtp (log ++ take n (session port text)) = Some e ->
  match as_string message with
  | Ok text' => run_commands (session port text') log
  | Raise e' => then_raise e' (run_commands (handshake env port) log)
  end
  = (log ++ take n (session port text), Raise e).
Proof.
  intros Hn Hs Hbefore Hlast.
  destruct (decide (n = 4%nat)) as [-> | Hn4].
  { rewrite Hs by done. by apply run_commands_fails. }
  assert (run_commands (handshake env port) log
          = (log ++ take n (session port text), Raise e)) as Hh.
  { rewrite take_session by lia. apply run_commands_fails.
    - cbn [length handshake]. lia.
    - intros k Hk. rewrite <- (take_session env port text) by lia. by apply Hbefore.
    - rewrite <- (take_session env port text) by lia. done. }
  destruct (as_string message) as [text' | e'].
  - rewrite (take_session env port text), <- (take_session env port text') by lia.
    apply run_commands_fails.
    + cbn [length smtp_session]. lia.
    + intros k Hk. rewrite take_session, <- (take_session env port text) by lia.
      by apply Hbefore.
    + rewrite take_session, <- (take_session env port text) by lia. done.
  - rewrite Hh. reflexivity.
Qed.

(** The shape of a session once the connection is made. *)
Lemma connected_session port log :
  configured env port ->
  smtp (log ++ take 1 (handshake env port)) = None ->
  exists n text,
    (2 <= n <= 4)%nat
    /\ fst (run log) = log ++ take n (session port text) ++ [Quit]
    /\ (forall k, (1 <= k < n)%nat -> smtp (log ++ take k (session port text)) = None)
    /\ (n = 4%nat -> as_string message = Ok text)
    /\ (forall u, snd (run log) = Ok u ->
        n = 4%nat /\ smtp (log ++ take 4 (session port text)) = None).
Proof.
  intros Hconf Hconnect. rewrite (run_configured port log Hconf), Hconnect.
  destruct (as_string message) as [text | e0] eqn:Hs.
  - destruct (run_commands_spec (session port text) log)
      as (n & Hn & Hlog & Hbefore & Hlast); [done |].
    exists n, text. unfold quit. cbn [fst snd]. rewrite Hlog.
    assert (2 <= n)%nat.
    { destruct (decide (n = 1%nat)) as [-> |]; [| lia].
      rewrite take_session in Hlast by lia.
      destruct (snd (run_commands (session port text) log)).
      - destruct Hlast as [Hlast _]. done.
      - congruence. }
    split; [cbn [length smtp_session] in Hn; lia |].
    split; [by rewrite <- app_assoc |]. split; [done |]. split; [done |].
    intros u Hu.
    destruct (snd (run_commands (session port text) log)) as [[] | e].
    + destruct Hlast as [-> Hlast]. done.
    + exfalso. revert Hu.
      match goal with
      | |- context [smtp ?l] => destruct (smtp l) as [[] |]
      end; done.
  - destruct (run_commands_spec (handshake env port) log)
      as (n & Hn & Hlog & Hbefore & Hlast); [done |].
    cbn [length handshake] in Hn.
    exists n, "". unfold quit, then_raise.
    destruct (run_commands (handshake env port) log) as [l r].
    cbn [fst snd] in Hlog, Hlast. subst l.
    assert (2 <= n)%nat.
    { destruct (decide (n = 1%nat)) as [-> |]; [| lia].
      destruct r.
      - destruct Hlast as [Hlast _]. done.
      - congruence. }
    split; [lia |]. rewrite take_session by lia. split.
    { destruct r; cbn [fst snd]; by rewrite <- app_assoc. }
    split; [intros k Hk; rewrite take_session by lia; by apply Hbefore |].
    split; [lia |].
    intros u Hu. exfalso. revert Hu.
    destruct r as [[] | e]; cbn [fst snd];
      match goal with
      | |- context [smtp ?l] => destruct (smtp l) as [[] |]
      end; done.
Qed.

(** X21.  The commands of a call follow one protocol.  Either the settings
    are at fault and nothing is sent; or the connection is refused and
    nothing else is sent; or the connection is made, and then the session
    is a prefix of STARTTLS, LOGIN, SENDMAIL, in this order, each of them
    once at most, ended by one QUIT.  The message of SENDMAIL is the
    serialised digest: there is none when the serialisation raises. *)
Theorem commands_follow_the_protocol log :
  (exists msg, run log = (log, Raise (ValueError msg)))
  \/ exists port text,
       configured env port
       /\ ((exists e, run log = (log ++ take 1 (session port text), Raise e))
           \/ exists n,
                (2 <= n <= 4)%nat
                /\ fst (run log) = log ++ take n (session port text) ++ [Quit]
                /\ (n = 4%nat -> as_string message = Ok text)).
Proof.
  destruct settings_checked as [[msg Hmsg] | [port Hconf]]; [left; eauto |].
  right. exists port.
  destruct (smtp (log ++ take 1 (handshake env port))) as [e |] eqn:Hconnect.
  - exists "". split; [done |]. left. exists e.
    by rewrite (run_configured port log Hconf), Hconnect.
  - destruct (connected_session port log Hconf Hconnect)
      as (n & text & ? & ? & _ & ? & _).
    exists text. split; [done |]. right. eauto.
Qed.

(** X22.  A call returns only when the message has been handed over: the
    settings were complete, the message could be serialised, the transport
    accepted the connection, STARTTLS, the login and the message, and the
    session is the complete one, ended by QUIT. *)
Theorem returns_only_when_delivered log log' u :
  run log = (log', Ok u) ->
  exists port text,
    configured env port
    /\ as_string message = Ok text
    /\ log' = log ++ session port text ++ [Quit]
    /\ forall k, (1 <= k <= 4)%nat -> smtp (log ++ take k (session port text)) = None.
Proof.
  intros Hrun.
  destruct settings_checked as [[msg Hmsg] | [port Hconf]];
    [rewrite Hmsg in Hrun; done |].
  exists port.
  destruct (smtp (log ++ take 1 (handshake env port))) as [e |] eqn:Hconnect.
  { rewrite (run_configured port log Hconf), Hconnect in Hrun. done. }
  destruct (connected_session port log Hconf Hconnect)
    as (n & text & Hn & Hlog & Hbefore & Hs & Hlast).
  rewrite Hrun in Hlog, Hlast. cbn [fst snd] in Hlog, Hlast.
  destruct (Hlast u eq_refl) as [-> Hsent].
  exists text. split; [done |]. split; [by apply Hs |]. split; [done |].
  intros k Hk. destruct (decide (k = 4%nat)) as [-> |]; [done |].
  apply Hbefore. lia.
Qed.

(** X23.  Among the commands that a call adds to the log, a login is there
    only if the transport has accepted STARTTLS, and a message only if it
    has accepted the login and the digest could be serialised; there is
    one message at most, and it carries the serialised digest from the
    configured sender to the single configured recipient. *)
Theorem login_needs_starttls_and_message_needs_login log :
  exists suffix,
    fst (run log) = log ++ suffix
    /\ (forall c, c ∈ suffix -> is_login c = true ->
        exists port,
          configured env port /\ smtp (log ++ take 2 (handshake env port)) = None)
    /\ (forall c, c ∈ suffix -> is_sendmail c = true ->
        exists port text,
          configured env port
          /\ smtp (log ++ take 3 (handshake env port)) = None
          /\ as_string message = Ok text
          /\ c = Sendmail (default "" (env !! "EMAIL_FROM"))
                   [default "" (env !! "EMAIL_TO")] text)
    /\ (length (filter (fun c => is_sendmail c = true) suffix) <= 1)%nat.
Proof.
  destruct settings_checked as [[msg Hmsg] | [port Hconf]].
  { exists []. rewrite Hmsg, app_nil_r. cbn [fst].
    split; [done |]. split; [| split]; [| | simpl; lia];
      intros c Hc; by apply elem_of_nil in Hc. }
  destruct (smtp (log ++ take 1 (handshake env port))) as [e |] eqn:Hconnect.
  { exists (take 1 (handshake env port)).
    rewrite (run_configured port log Hconf), Hconnect. cbn [fst].
    split; [done |]. cbn [take handshake].
    split; [| split]; [| | rewrite filter_cons_False by done; simpl; lia];
      intros c Hc; apply list_elem_of_singleton in Hc as ->; discriminate. }
  destruct (connected_session port log Hconf Hconnect)
    as (n & text & Hn & Hlog & Hbefore & Hs & _).
  exists (take n (session port text) ++ [Quit]). split; [done |].
  assert (H2 : (3 <= n)%nat -> smtp (log ++ take 2 (handshake env port)) = None)
    by (intros; apply (Hbefore 2%nat); lia).
  assert (H3 : (4 <= n)%nat -> smtp (log ++ take 3 (handshake env port)) = None)
    by (intros; apply (Hbefore 3%nat); lia).
  clear Hlog Hbefore.
  destruct n as [|[|[|[|[|n]]]]]; try lia;
    cbn [take smtp_session delivery app];
    (split; [| split]);
    [ intros c Hc Hl | intros c Hc Hs' | | intros c Hc Hl | intros c Hc Hs' |
    | intros c Hc Hl | intros c Hc Hs' | ].
  - repeat (apply elem_of_cons in Hc as [-> | Hc]); try discriminate Hl.
    by apply elem_of_nil in Hc.
  - repeat (apply elem_of_cons in Hc as [-> | Hc]); try discriminate Hs'.
    by apply elem_of_nil in Hc.
  - rewrite !filter_cons_False by done. simpl. lia.
  - exists port. split; [done |]. apply H2. lia.
  - repeat (apply elem_of_cons in Hc as [-> | Hc]); try discriminate Hs'.
    by apply elem_of_nil in Hc.
  - rewrite !filter_cons_False by done. simpl. lia.
  - exists port. split; [done |]. apply H2. lia.
  - exists port, text. split; [done |]. split; [apply H3; lia |].
    split; [by apply Hs |].
    repeat (apply elem_of_cons in Hc as [-> | Hc]); try discriminate Hs';
      [done | by apply elem_of_nil in Hc].
  - rewrite !filter_cons_False by done.
    rewrite filter_cons_True by done. rewrite !filter_cons_False by done.
    simpl. lia.
Qed.

(** X24.  The first command that the transport refuses ends the session:
    nothing is sent after it but QUIT (and not even QUIT when it is the
    connection that failed), and its exception is what the caller gets,
    unless QUIT fails in its turn, with another exception than a
    disconnection, which then replaces it.  The fourth command is there
    to be refused only when the digest has been serialised. *)
Theorem refused_command_ends_the_session port text log n e :
  configured env port ->
  (1 <= n <= 4)%nat ->
  (n = 4%nat -> as_string message = Ok text) ->
  (forall k, (1 <= k < n)%nat -> smtp (log ++ take k (session port text)) = None) ->
  smtp (log ++ take n (session port text)) = Some e ->
  (n = 1%nat -> run log = (log ++ take 1 (session port text), Raise e))
  /\ ((2 <= n)%nat ->
      fst (run log) = log ++ take n (session port text) ++ [Quit]
      /\ (smtp (fst (run log)) = None
          \/ smtp (fst (run log)) = Some SMTPServerDisconnected ->
          snd (run log) = Raise e)
      /\ (forall e', smtp (fst (run log)) = Some e' ->
          e' <> SMTPServerDisconnected -> snd (run log) = Raise e')).
Proof.
  intros Hconf Hn Hs Hbefore Hlast. rewrite (run_configured port log Hconf).
  rewrite <- (take_session env port text 1) by lia. split.
  - intros ->. by rewrite Hlast.
  - intros H2. rewrite (Hbefore 1%nat) by lia.
    rewrite (block_refused port text log n e Hn Hs Hbefore Hlast).
    unfold quit. cbn [fst snd]. rewrite <- app_assoc. split; [done |]. split.
    + by intros [-> | ->].
    + intros e' -> He'. by destruct e'.
Qed.

(** X25.  When the digest is serialised and the transport accepts the
    connection and the three commands of the block, the session is the
    complete one; the call returns if QUIT is accepted too, and also if
    the server has gone away when QUIT is sent; any other failure of QUIT
    is raised. *)
Theorem disconnection_at_quit_is_no_error port text log :
  configured env port ->
  as_string message = Ok text ->
  (forall k, (1 <= k <= 4)%nat -> smtp (log ++ take k (session port text)) = None) ->
  fst (run log) = log ++ session port text ++ [Quit]
  /\ (smtp (fst (run log)) = None
      \/ smtp (fst (run log)) = Some SMTPServerDisconnected ->
      snd (run log) = Ok tt)
  /\ (forall e, smtp (fst (run log)) = Some e ->
      e <> SMTPServerDisconnected -> snd (run log) = Raise e).
Proof.
  intros Hconf Hs Hall. rewrite (run_configured port log Hconf), Hs.
  rewrite <- (take_session env port text 1) by lia.
  rewrite (Hall 1%nat) by lia.
  rewrite (run_commands_accepted (session port text) log) by exact Hall.
  unfold quit. cbn [fst snd]. rewrite <- app_assoc. split; [done |]. split.
  - by intros [-> | ->].
  - intros e -> He. by destruct e.
Qed.

(** X26.  A digest that cannot be serialised is never sent.  When the
    transport accepts the connection, STARTTLS and the login, and
    [as_string] then raises, the session holds these three commands and
    QUIT, no message, and the caller gets the exception of [as_string],
    unless QUIT fails in its turn, with another exception than a
    disconnection, which then replaces it. *)
Theorem unserialisable_digest_is_not_sent port log e :
  configured env port ->
  as_string message = Raise e ->
  (forall k, (1 <= k <= 3)%nat -> smtp (log ++ take k (handshake env port)) = None) ->
  fst (run log) = log ++ handshake env port ++ [Quit]
  /\ (smtp (fst (run log)) = None
      \/ smtp (fst (run log)) = Some SMTPServerDisconnected ->
      snd (run log) = Raise e)
  /\ (forall e', smtp (fst (run log)) = Some e' ->
      e' <> SMTPServerDisconnected -> snd (run log) = Raise e').
Proof.
  intros Hconf Hs Hall. rewrite (run_configured port log Hconf), Hs.
  rewrite (Hall 1%nat) by lia.
  rewrite (run_commands_accepted (handshake env port) log) by exact Hall.
  unfold quit, then_raise. cbn [fst snd]. rewrite <- app_assoc.
  split; [done |]. split.
  - by intros [-> | ->].
  - intros e' -> He'. by destruct e'.
Qed.

End Call.

End Facts.

(** ** Runs *)

Lemma env_without_port_configured : configured env_without_port 587.
Proof. split; [reflexivity |]. unfold required. repeat constructor. Qed.

(** A transport that refuses every login. *)
Definition refusing_smtp (h : list smtp_cmd) : option exn :=
  match last h with
  | Some (SmtpLogin _ _) => Some SMTPException
  | _ => None
  end.

(** A transport that has gone away by the time QUIT is sent. *)
Definition hasty_smtp (h : list smtp_cmd) : option exn :=
  match last h with
  | Some Quit => Some SMTPServerDisconnected
  | _ => None
  end.

(** A serialisation that refuses a sender's address with a line feed in
    it, as [as_string] does when a header line follows the line feed. *)
Definition wary_as_string (msg : mime_message) : result string :=
  if existsb (Ascii.eqb "010") (list_ascii_of_string (mime_from msg))
  then Raise HeaderParseError
  else flat_as_string msg.

(** Settings whose sender's address carries a second header. *)
Definition env_with_injection : environ :=
  <["EMAIL_FROM" := "digest@example.org" +:+ NL +:+ "Bcc: all@example.org"]>
    env_without_port.

Lemma env_with_injection_configured : configured env_with_injection 587.
Proof. split; [reflexivity |]. unfold required. repeat constructor. Qed.

(** The text of the sample digest. *)
Definition sample_text : string :=
  match flat_as_string (digest_message env_without_port
                          ["Invoice #1"] "11.0 C, clear sky" ["Rocq 9.3 released"]) with
  | Ok text => text
  | Raise _ => ""
  end.

Lemma four_cases (P : nat -> Prop) :
  P 1%nat -> P 2%nat -> P 3%nat -> P 4%nat ->
  forall k, (1 <= k <= 4)%nat -> P k.
Proof. intros ? ? ? ? [|[|[|[|[|k]]]]] ?; first [done | lia]. Qed.

Lemma three_cases (P : nat -> Prop) :
  P 1%nat -> P 2%nat -> P 3%nat ->
  forall k, (1 <= k <= 3)%nat -> P k.
Proof. intros ? ? ? [|[|[|[|k]]]] ?; first [done | lia]. Qed.

Lemma returns_only_when_delivered_witness :
  exists port text,
    configured env_without_port port
    /\ flat_as_string (digest_message env_without_port
                         ["Invoice #1"] "11.0 C, clear sky" ["Rocq 9.3 released"])
       = Ok text
    /\ fst (send_summary_email willing_smtp flat_as_string env_without_port
              ["Invoice #1"] "11.0 C, clear sky" ["Rocq 9.3 released"] [])
       = [] ++ smtp_session env_without_port port text ++ [Quit]
    /\ forall k, (1 <= k <= 4)%nat ->
       willing_smtp ([] ++ take k (smtp_session env_without_port port text)) = None.
Proof.
  apply (returns_only_when_delivered willing_smtp flat_as_string env_without_port
           ["Invoice #1"] "11.0 C, clear sky" ["Rocq 9.3 released"] [] _ tt).
  vm_compute. reflexivity.
Defined.

Lemma refused_command_ends_the_session_witness :
  fst (send_summary_email refusing_smtp flat_as_string env_without_port
         ["Invoice #1"] "11.0 C, clear sky" ["Rocq 9.3 released"] [])
  = [ SmtpConnect "smtp.example.org" 587; Starttls; SmtpLogin "digest" "secret";
      Quit ].
Proof.
  refine (proj1 (proj2 (refused_command_ends_the_session refusing_smtp
                          flat_as_string
                          env_without_port ["Invoice #1"] "11.0 C, clear sky"
                          ["Rocq 9.3 released"] 587 sample_text [] 3 SMTPException
                          env_without_port_configured _ _ _ _) _));
    [lia | intros; reflexivity | | reflexivity | lia].
  intros [|[|[|k]]] Hk; first [reflexivity | lia].
Defined.

Lemma disconnection_at_quit_is_no_error_witness :
  snd (send_summary_email hasty_smtp flat_as_string env_without_port
         ["Invoice #1"] "11.0 C, clear sky" ["Rocq 9.3 released"] [])
  = Ok tt.
Proof.
  apply (proj1 (proj2 (disconnection_at_quit_is_no_error hasty_smtp
                         flat_as_string
                         env_without_port ["Invoice #1"] "11.0 C, clear sky"
                         ["Rocq 9.3 released"] 587 sample_text []
                         env_without_port_configured eq_refl
                         (four_cases _ eq_refl eq_refl eq_refl eq_refl)))).
  right. reflexivity.
Defined.

Lemma unserialisable_digest_is_not_sent_witness :
  send_summary_email willing_smtp wary_as_string env_with_injection
    ["Invoice #1"] "11.0 C, clear sky" ["Rocq 9.3 released"] []
  = ([ SmtpConnect "smtp.example.org" 587; Starttls; SmtpLogin "digest" "secret";
       Quit ],
     Raise HeaderParseError).
Proof.
  destruct (unserialisable_digest_is_not_sent willing_smtp wary_as_string
              env_with_injection ["Invoice #1"] "11.0 C, clear sky"
              ["Rocq 9.3 released"] 587 [] HeaderParseError
              env_with_injection_configured eq_refl
              (three_cases _ eq_refl eq_refl eq_refl))
    as (Hlog & Hquit & _).
  rewrite (surjective_pairing (send_summary_email _ _ _ _ _ _ _)).
  rewrite Hlog, (Hquit (or_introl eq_refl)). reflexivity.
Defined.

End MailerFacts.
